(** * whatif: scenario grids, model cloning and the three experiment drivers

    A shallow embedding of [src/src/whatif/whatif.py]: the module-level
    functions [create_parameter_grid] and [get_sim_results_df] and the
    methods [update], [data_table], [goal_seek] and [simulate] of the base
    class [Model].

    Python objects live in an explicit heap, because the drivers clone the
    model with [copy.deepcopy] and [simulate] stores [vars(...)], a live
    reference to an instance dictionary, in the records it returns. *)

From Stdlib Require Import ZArith PrimFloat FloatOps SpecFloat Lia.
From stdpp Require Import gmap strings list.

Set Default Proof Using "Type".
Local Open Scope Z_scope.

(** ** Python values, exceptions and results *)

(** The data a model attribute, a candidate value or an output can hold.
    [VList] stands for every array-like value (list, tuple, numpy array). *)
#[warnings="-register-all"]
Inductive value : Type :=
| VNone
| VBool (b : bool)
| VInt (z : Z)
| VFloat (x : float)
| VStr (s : string)
| VList (l : list value).

(** [numpy.nan], the filler pandas uses for a missing cell. *)
Definition VNaN : value := VFloat PrimFloat.nan.

(** The built-in exceptions the embedded code can raise, an open class for
    the exceptions of user models, and the three error classes named by the
    specification's taxonomy (the module itself defines none of them). *)
Inductive exn : Type :=
| ValueError
| TypeError
| AttributeError
| IndexError
| ZeroDivisionError
| OverflowError
| UserError (name : string)
| ConfigurationError
| ShapeMismatchError
| ModelEvaluationError (scenario_index : Z) (output_name : string) (cause : exn).

Inductive res (A : Type) : Type :=
| Ok (a : A)
| Raise (e : exn).
Arguments Ok {A} a.
Arguments Raise {A} e.

#[export] Instance res_ret : MRet res := λ A a, Ok a.
#[export] Instance res_bind : MBind res := λ A B k r,
  match r with
  | Ok a => k a
  | Raise e => Raise e
  end.

(** A [for] loop whose body may raise but touches no object. *)
Fixpoint res_for {A S} (xs : list A) (body : A → S → res S) (s : S) : res S :=
  match xs with
  | [] => Ok s
  | x :: xs' => s' ← body x s; res_for xs' body s'
  end.

(** ** Dictionaries with insertion order

    A Python [dict] keeps its keys in insertion order and assigning to an
    existing key keeps the key's position.  Where that order is observable
    (scenario assignments, result rows, table columns) a dictionary is an
    association list with pairwise distinct keys. *)

Abbreviation pydict V := (list (string * V)).

Fixpoint dict_set {V} (k : string) (v : V) (d : pydict V) : pydict V :=
  match d with
  | [] => [(k, v)]
  | (k', v') :: d' =>
      if decide (k = k') then (k, v) :: d' else (k', v') :: dict_set k v d'
  end.

Fixpoint dict_get {V} (k : string) (d : pydict V) : option V :=
  match d with
  | [] => None
  | (k', v') :: d' => if decide (k = k') then Some v' else dict_get k d'
  end.

Definition dict_keys {V} (d : pydict V) : list string := d.*1.

(** [dict(pairs)]: insert the pairs from left to right. *)
Definition dict_of_pairs {V} (kvs : list (string * V)) : pydict V :=
  foldl (λ d kv, dict_set kv.1 kv.2 d) [] kvs.

(** [d1.update(d2)], also the effect of [df[k] = v] over the keys of [d2]. *)
Definition dict_update {V} (d1 d2 : pydict V) : pydict V :=
  foldl (λ d kv, dict_set kv.1 kv.2 d) d1 d2.

(** ** [create_parameter_grid] *)

(** [itertools.product] over the unpacked pools: nested loops, the rightmost
    pool advancing on every step. *)
Fixpoint product {A} (pools : list (list A)) : list (list A) :=
  match pools with
  | [] => [[]]
  | pool :: rest => flat_map (λ x, map (cons x) (product rest)) pool
  end.

(** [keys, values = zip] of the unpacked [scenario_inputs.items()].  With no
    items [zip] yields nothing and the unpacking into two names raises [ValueError];
    otherwise every item is a pair and the transposition has two rows. *)
Definition unzip_items {V} (items : pydict V) : res (list string * list V) :=
  match items with
  | [] => Raise ValueError
  | _ => Ok (items.*1, items.*2)
  end.

Definition create_parameter_grid (scenario_inputs : pydict (list value))
  : res (list (pydict value)) :=
  '(keys, values) ← unzip_items scenario_inputs;
  Ok ((λ v, dict_of_pairs (zip keys v)) <$> product values).

(** The number of tuples in a product of pools. *)
Definition pools_size {A} (pools : list (list A)) : nat :=
  foldr (λ pool n, (length pool * n)%nat) 1%nat pools.

(** Number of scenarios a mapping describes: the product of the lengths of
    its candidate sequences. *)
Fixpoint grid_size {V} (scenario_inputs : pydict (list V)) : nat :=
  match scenario_inputs with
  | [] => 1
  | (_, vs) :: rest => (length vs * grid_size rest)%nat
  end.

(** The period with which the [j]-th input's value changes in a row-major
    enumeration: the number of combinations of the inputs declared after it. *)
Definition stride {V} (scenario_inputs : pydict (list V)) (j : nat) : nat :=
  grid_size (drop (S j) scenario_inputs).

(** ** The heap and the driver monad

    A model instance is a heap location holding its instance dictionary
    ([__dict__]); [vars(obj)] is a reference to that same dictionary, so it
    is the location again.  Instance dictionaries are compared as mappings
    (Python's [==] on dicts ignores order), hence [gmap]. *)

Abbreviation loc := nat (only parsing).
Abbreviation attrs := (gmap string value).
Abbreviation heap := (list (gmap string value)).

(** A computation reads and writes the heap and returns or raises. *)
Definition M (A : Type) : Type := heap → res A * heap.

#[export] Instance M_ret : MRet M := λ A a h, (Ok a, h).
#[export] Instance M_bind : MBind M := λ A B k m h,
  match m h with
  | (Ok a, h') => k a h'
  | (Raise e, h') => (Raise e, h')
  end.

Definition raise {A} (e : exn) : M A := λ h, (Raise e, h).

(** Run a heap-free computation inside a driver. *)
Definition lift {A} (r : res A) : M A := λ h, (r, h).

(** A [for] loop over a list whose body updates the loop's local state. *)
Fixpoint for_loop {A S} (xs : list A) (body : A → S → M S) (s : S) : M S :=
  match xs with
  | [] => mret s
  | x :: xs' => s' ← body x s; for_loop xs' body s'
  end.

(** Attributes of a dangling location read as empty; the drivers only touch
    the caller's model and the clone they allocate. *)
Definition attrs_at (h : heap) (l : loc) : attrs := default ∅ (h !! l).

(** [copy.deepcopy(obj)]: a new object with a copy of the instance
    dictionary; values are immutable data, so the copy holds equal values. *)
Definition deepcopy (obj : loc) : M loc := λ h,
  (Ok (length h), h ++ [attrs_at h obj]).

(** [setattr(obj, key, v)] writes into the object's instance dictionary.
    The embedding covers the attribute names an instance accepts; the names
    the object model reserves and cannot bind to data ([__class__],
    [__dict__], [__weakref__]) are outside it. *)
Definition setattr (obj : loc) (key : string) (v : value) : M unit := λ h,
  (Ok (), alter (<[key := v]>) obj h).

(** [vars(obj)]: the instance dictionary itself, not a copy of it. *)
Definition vars (obj : loc) : M loc := mret obj.

(** An output operation of a model class: a zero-argument method, which
    reads the attributes of [self], may rebind them, and returns or raises. *)
Definition method : Type := gmap string value → res value * gmap string value.

(** The methods of a model class, by name. *)
Definition model_class : Type := string → option method.

(** Looking up [name] on an instance with attributes [a] and calling the
    result.  An instance attribute shadows a method of the same name and
    holds data, which is not callable; a name bound nowhere is an
    [AttributeError]. *)
Definition invoke (cls : model_class) (name : string) (a : gmap string value)
  : res value * gmap string value :=
  match a !! name with
  | Some _ => (Raise TypeError, a)
  | None =>
      match cls name with
      | None => (Raise AttributeError, a)
      | Some m => m a
      end
  end.

(** [getattr(obj, name)()] *)
Definition call_method (cls : model_class) (obj : loc) (name : string) : M value := λ h,
  let '(r, a') := invoke cls name (attrs_at h obj) in (r, <[obj := a']> h).

(** A computation that writes to no object but [c]. *)
Definition writes_only {A} (c : loc) (m : M A) : Prop :=
  ∀ h, (c < length h)%nat → ∃ a', (m h).2 = <[c := a']> h.

(** A method that leaves the attributes of [self] as it found them. *)
Definition read_only (cls : model_class) (name : string) : Prop :=
  ∀ m a, cls name = Some m → (m a).2 = a.

(** ** [Model.update] *)

Definition update (self : loc) (param_dict : pydict value) : M unit :=
  for_loop param_dict (λ '(key, v) _, setattr self key v) ().

(** The attributes of an object after [update]: every pair written in turn. *)
Definition updated (a : gmap string value) (param_dict : pydict value)
  : gmap string value :=
  foldl (λ a kv, <[kv.1 := kv.2]> a) a param_dict.

(** The attributes of the reused clone after each scenario of a grid. *)
Fixpoint clone_states (a : gmap string value) (grid : list (pydict value))
  : list (gmap string value) :=
  match grid with
  | [] => []
  | params :: grid' => updated a params :: clone_states (updated a params) grid'
  end.

(** The values of the requested outputs on attributes [a], stored under
    their names in [acc]; the first output that raises decides. *)
Definition output_values (cls : model_class) (a : gmap string value)
    (outputs : list string) (acc : pydict value) : res (pydict value) :=
  res_for outputs (λ o d, v ← (invoke cls o a).1; Ok (dict_set o v d)) acc.

(** ** Tables

    A pandas [DataFrame], column by column: the row labels and, per column
    name, the cells of that column.  Cells keep the Python value they were
    built from. *)

Record frame : Type := {
  df_index : list Z;
  df_columns : pydict (list value)
}.

Definition nrows (df : frame) : nat := length (df_index df).

(** [RangeIndex(n)] *)
Definition range_index (n : nat) : list Z := Z.of_nat <$> seq 0 n.

(** Names in order of first appearance, after those of [acc]. *)
Definition add_names (acc names : list string) : list string :=
  foldl (λ acc c, if decide (c ∈ acc) then acc else acc ++ [c]) acc names.

Definition ordered_union (names : list string) : list string := add_names [] names.

Definition array_len (v : value) : option nat :=
  match v with
  | VList l => Some (length l)
  | _ => None
  end.

(** A scalar is repeated down the column, an array gives its elements. *)
Definition broadcast (n : nat) (v : value) : list value :=
  match v with
  | VList l => l
  | _ => replicate n v
  end.

(** [pd.DataFrame(data)] for a dictionary from column name to array or
    scalar: arrays must agree in length, scalars are broadcast, and a
    dictionary of scalars only has no index to broadcast over. *)
Definition DataFrame_dict (data : pydict value) : res frame :=
  match omap array_len data.*2 with
  | [] =>
      match data with
      | [] => Ok {| df_index := []; df_columns := [] |}
      | _ => Raise ValueError
      end
  | n :: ns =>
      if forallb (Nat.eqb n) ns
      then Ok {| df_index := range_index n;
                 df_columns := prod_map id (broadcast n) <$> data |}
      else Raise ValueError
  end.

(** [pd.DataFrame(rows)] for a list of dictionaries, one per row: the
    columns are the keys in order of first appearance, a key a row lacks
    gives [NaN]. *)
Definition DataFrame_records (rows : list (pydict value)) : frame :=
  {| df_index := range_index (length rows);
     df_columns :=
       (λ c, (c, (λ r, default VNaN (dict_get c r)) <$> rows))
         <$> ordered_union (rows ≫= dict_keys) |}.

(** [df[key] = v]: a scalar fills the column; an array must have one element
    per row, except that it defines the rows of a table that has none. *)
Definition frame_setitem (key : string) (v : value) (df : frame) : res frame :=
  match v with
  | VList l =>
      if decide (nrows df = 0%nat ∧ l ≠ [])
      then Ok {| df_index := range_index (length l);
                 df_columns :=
                   dict_set key l
                     (prod_map id (λ _, replicate (length l) VNaN) <$> df_columns df) |}
      else if decide (length l = nrows df)
      then Ok {| df_index := df_index df;
                 df_columns := dict_set key l (df_columns df) |}
      else Raise ValueError
  | _ =>
      Ok {| df_index := df_index df;
            df_columns := dict_set key (replicate (nrows df) v) (df_columns df) |}
  end.

(** The cells of column [c] of a table, [NaN] in every row when the table
    has no such column. *)
Definition column_or_nan (c : string) (df : frame) : list value :=
  default (replicate (nrows df) VNaN) (dict_get c (df_columns df)).

(** [pd.concat(dfs)]: rows below one another with their labels, columns
    united by name, [NaN] where a table lacks a column. *)
Definition concat_frames (dfs : list frame) : frame :=
  {| df_index := dfs ≫= df_index;
     df_columns :=
       (λ c, (c, dfs ≫= column_or_nan c))
         <$> ordered_union (dfs ≫= (λ df, dict_keys (df_columns df))) |}.

(** Every column of a table has one cell per row. *)
Definition rectangular (df : frame) : Prop :=
  Forall (λ col, length col.2 = nrows df) (df_columns df).

(** The cells of row number [i], by column name. *)
Definition row_at (cols : pydict (list value)) (i : nat) : pydict value :=
  prod_map id (λ col, default VNaN (col !! i)) <$> cols.

(** The rows of a table, top to bottom. *)
Definition frame_rows (df : frame) : list (pydict value) :=
  row_at (df_columns df) <$> seq 0 (nrows df).

(** ** [Model.data_table] *)

(** The loop over the requested outputs, shared by the drivers: each value
    is stored under the output's name in the dictionary [acc]. *)
Definition eval_outputs (cls : model_class) (model_clone : loc)
    (outputs : list string) (acc : pydict value) : M (pydict value) :=
  for_loop outputs (λ output result,
    out_val ← call_method cls model_clone output;
    mret (dict_set output out_val result)) acc.

(** Evaluated from heap [h], the outputs before [o] return and [o] raises
    [e], leaving heap [h']. *)
Definition first_failure (cls : model_class) (model_clone : loc)
    (outputs : list string) (acc : pydict value) (h : heap)
    (o : string) (e : exn) (h' : heap) : Prop :=
  ∃ before after acc' h1,
    outputs = before ++ o :: after ∧
    eval_outputs cls model_clone before acc h = (Ok acc', h1) ∧
    call_method cls model_clone o h1 = (Raise e, h').

(** The body of the scenario loop of [data_table].  The call
    [model_clone.update(params)] is embedded as the method [update] of the
    base class: this covers the runs in which the clone has no attribute
    named [update], where the lookup finds the method; the theorems that
    say a sweep completes assume as much. *)
Definition data_table_scenario (cls : model_class) (model_clone : loc)
    (outputs : list string) (params : pydict value)
    (results : list (pydict value)) : M (list (pydict value)) :=
  update model_clone params;;
  result ← eval_outputs cls model_clone outputs params;
  mret (results ++ [result]).

Definition data_table (cls : model_class) (self : loc)
    (scenario_inputs : pydict (list value)) (outputs : list string) : M frame :=
  model_clone ← deepcopy self;
  dt_param_grid ← lift (create_parameter_grid scenario_inputs);
  results ← for_loop dt_param_grid (data_table_scenario cls model_clone outputs) [];
  mret (DataFrame_records results).

(** The requested outputs called in turn on an instance with attributes
    [a], as the loop over the outputs calls them on the clone: each call
    sees the attributes as the calls before it left them.  Gives the values
    in the order of the requests, or the first exception, and the
    attributes left behind. *)
Fixpoint call_outputs (cls : model_class) (outputs : list string)
    (a : gmap string value) : res (list value) * gmap string value :=
  match outputs with
  | [] => (Ok [], a)
  | o :: outputs' =>
      match invoke cls o a with
      | (Ok v, a') =>
          match call_outputs cls outputs' a' with
          | (Ok vs, a'') => (Ok (v :: vs), a'')
          | (Raise e, a'') => (Raise e, a'')
          end
      | (Raise e, a') => (Raise e, a')
      end
  end.

(** The attributes the one reused clone carries from scenario to scenario
    of a sweep over [grid]: it starts with [a]; every scenario writes its
    assignment over what the clone carries, calls the outputs, and hands
    on what they leave.  Element [k] is what scenario [k] finds, the last
    element what the last scenario leaves. *)
Fixpoint carried (cls : model_class) (outputs : list string)
    (a : gmap string value) (grid : list (pydict value))
  : list (gmap string value) :=
  match grid with
  | [] => [a]
  | params :: grid' =>
      a :: carried cls outputs (call_outputs cls outputs (updated a params)).2 grid'
  end.

(** ** [Model.goal_seek] *)

(** The arithmetic and comparison protocol of the values [goal_seek]
    computes with.  A comparison is given with the truth test the [if]
    applies to its result. *)
Class PyArith : Type := {
  py_add : value → value → res value;
  py_sub : value → value → res value;
  py_mul : value → value → res value;
  py_truediv : value → value → res value;
  py_lt : value → value → res bool;
  py_ge : value → value → res bool;
  py_eq : value → value → res bool
}.

Section GoalSeek.
Context `{PyArith}.

(** [(f1 - target) * (f2 - target)] *)
Definition residual_product (f1 f2 target : value) : res value :=
  d1 ← py_sub f1 target;
  d2 ← py_sub f2 target;
  py_mul d1 d2.

(** [(a + b) / 2] *)
Definition midpoint (a b : value) : res value :=
  s ← py_add a b;
  py_truediv s (VInt 2).

(** The body of [for n in range(1, N + 1)], with [n] iterations left. *)
Fixpoint bisection_loop (cls : model_class) (model_clone : loc)
    (obj_fn : string) (target : value) (by_changing : string)
    (n : nat) (a_n b_n : value) : M value :=
  match n with
  | O => lift (midpoint a_n b_n)
  | S n' =>
      m_n ← lift (midpoint a_n b_n);
      setattr model_clone by_changing m_n;;
      f_m_n ← call_method cls model_clone obj_fn;
      setattr model_clone by_changing a_n;;
      f_a_n ← call_method cls model_clone obj_fn;
      setattr model_clone by_changing b_n;;
      f_b_n ← call_method cls model_clone obj_fn;
      left_half ← lift (p ← residual_product f_a_n f_m_n target; py_lt p (VInt 0));
      if left_half : bool
      then bisection_loop cls model_clone obj_fn target by_changing n' a_n m_n
      else
        right_half ← lift (p ← residual_product f_b_n f_m_n target; py_lt p (VInt 0));
        if right_half : bool
        then bisection_loop cls model_clone obj_fn target by_changing n' m_n b_n
        else
          hit ← lift (py_eq f_m_n target);
          if hit : bool then mret m_n else mret VNone
  end.

Definition goal_seek (cls : model_class) (self : loc) (obj_fn : string)
    (target : value) (by_changing : string) (a b : value) (N : Z) : M value :=
  model_clone ← deepcopy self;
  setattr model_clone by_changing a;;
  f_a_0 ← call_method cls model_clone obj_fn;
  setattr model_clone by_changing b;;
  f_b_0 ← call_method cls model_clone obj_fn;
  no_bracket ← lift (p ← residual_product f_a_0 f_b_0 target; py_ge p (VInt 0));
  if no_bracket : bool
  then mret VNone
  else bisection_loop cls model_clone obj_fn target by_changing (Z.to_nat N) a b.

(** Bisection as the specification words it, over a function [f] from the
    changing input to the objective's value. *)
Fixpoint bisect (f : value → res value) (target : value)
    (n : nat) (a_n b_n : value) : res value :=
  match n with
  | O => midpoint a_n b_n
  | S n' =>
      m ← midpoint a_n b_n;
      f_m ← f m;
      f_a ← f a_n;
      f_b ← f b_n;
      left_half ← (p ← residual_product f_a f_m target; py_lt p (VInt 0));
      if left_half : bool then bisect f target n' a_n m
      else
        right_half ← (p ← residual_product f_b f_m target; py_lt p (VInt 0));
        if right_half : bool then bisect f target n' m b_n
        else
          hit ← py_eq f_m target;
          if hit : bool then Ok m else Ok VNone
  end.

Definition solve (f : value → res value) (target a b : value) (N : Z) : res value :=
  f_a ← f a;
  f_b ← f b;
  no_bracket ← (p ← residual_product f_a f_b target; py_ge p (VInt 0));
  if no_bracket : bool then Ok VNone
  else bisect f target (Z.to_nat N) a b.
End GoalSeek.

(** The objective of a goal seek as a function of the changing input: the
    value of [obj_fn] on the attributes [a] with [by_changing] set. *)
Definition objective (cls : model_class) (obj_fn by_changing : string)
    (a : gmap string value) (x : value) : res value :=
  (invoke cls obj_fn (<[by_changing := x]> a)).1.

(** The heaps a goal seek runs in: the clone sits on top of the caller's
    heap [h] and differs from the attributes [a] in [by_changing] at most. *)
Definition probing (h : heap) (a : gmap string value) (by_changing : string)
    (h' : heap) : Prop :=
  ∃ a', h' = h ++ [a'] ∧ ∀ x, <[by_changing := x]> a' = <[by_changing := x]> a.

(** ** [Model.simulate] *)

(** One element of the list [simulate] returns.  [scenario_base_vals] holds
    what [vars] returned: a reference to an instance dictionary. *)
Record scenario_record : Type := {
  scenario_base_vals : loc;
  scenario_num : Z;
  scenario_vals : pydict value;
  output : pydict value
}.

(** The body of the scenario loop of [simulate]; the loop's state is the
    counter [scenario_num] and the list [scenario_results].  As in
    [data_table_scenario], [model_clone.update(params)] is embedded as the
    method [update], for clones that have no attribute of that name. *)
Definition simulate_scenario (cls : model_class) (model_clone : loc)
    (outputs : list string) (base_vals : loc) (params : pydict value)
    (st : Z * list scenario_record) : M (Z * list scenario_record) :=
  update model_clone params;;
  raw_output ← eval_outputs cls model_clone outputs [];
  let result :=
    {| scenario_base_vals := base_vals;
       scenario_num := st.1;
       scenario_vals := params;
       output := raw_output |} in
  mret (st.1 + 1, st.2 ++ [result]).

Definition simulate (cls : model_class) (self : loc)
    (random_inputs : pydict value) (outputs : list string)
    (scenario_inputs : option (pydict (list value)))
    (keep_random_inputs : bool) : M (list scenario_record) :=
  model_clone ← deepcopy self;
  update model_clone random_inputs;;
  base_vals ← (if keep_random_inputs then vars model_clone else vars self);
  match scenario_inputs with
  | Some scenario_inputs =>
      sim_param_grid ← lift (create_parameter_grid scenario_inputs);
      st ← for_loop sim_param_grid
             (simulate_scenario cls model_clone outputs base_vals) (0, []);
      mret st.2
  | None =>
      raw_output ← eval_outputs cls model_clone outputs [];
      mret [ {| scenario_base_vals := base_vals;
                scenario_num := 0;
                scenario_vals := [];
                output := raw_output |} ]
  end.

(** The attribute values a record's [scenario_base_vals] shows to a caller
    who reads it in heap [h]. *)
Definition base_vals_in (h : heap) (r : scenario_record) : gmap string value :=
  attrs_at h (scenario_base_vals r).

(** ** [get_sim_results_df] *)

(** The table built for one record in the body of the loop. *)
Definition frame_of_record (r : scenario_record) : res frame :=
  df ← DataFrame_dict (output r);
  df ← frame_setitem "scenario_num" (VInt (scenario_num r)) df;
  res_for (scenario_vals r) (λ '(key, val) df, frame_setitem key val df) df.

Definition get_sim_results_df (results : list scenario_record) : res frame :=
  dfs ← res_for results (λ r dfs, df ← frame_of_record r; Ok (dfs ++ [df])) [];
  if decide (1 < length dfs)%nat
  then Ok (concat_frames dfs)
  else match dfs with
       | df :: _ => Ok df
       | [] => Raise IndexError
       end.

(** [arr[i]] for an array; a scalar stands for itself at every index. *)
Definition array_item (i : nat) (arr : value) : value :=
  match arr with
  | VList l => default VNaN (l !! i)
  | _ => arr
  end.

(** The row the specification describes for replication [i] of a record:
    the [i]-th element of every output array, the scenario number and the
    scenario's values, a later entry replacing an earlier one of its name. *)
Definition record_row (r : scenario_record) (i : nat) : pydict value :=
  dict_update
    (dict_set "scenario_num" (VInt (scenario_num r))
       (prod_map id (array_item i) <$> output r))
    (scenario_vals r).

(** The number of replications of a record: the length of its output arrays. *)
Definition replications (r : scenario_record) : nat :=
  default 0%nat (head (omap array_len (output r).*2)).

Definition record_rows (r : scenario_record) : list (pydict value) :=
  record_row r <$> seq 0 (replications r).

(** The table of one record: its output arrays as columns, then the
    scenario number and the scenario's values, each filling a column. *)
Definition record_frame (r : scenario_record) : frame :=
  let n := replications r in
  {| df_index := range_index n;
     df_columns :=
       dict_update
         (dict_set "scenario_num" (replicate n (VInt (scenario_num r)))
            (prod_map id (broadcast n) <$> output r))
         (prod_map id (replicate n) <$> scenario_vals r) |}.

(** The column names of the rows of a record. *)
Definition record_columns (r : scenario_record) : list string :=
  dict_keys (record_row r 0).

(** A record as the specification's flattening expects it: dictionaries
    with distinct keys, every output an array of the record's replication
    count, every scenario value a scalar. *)
Definition flat_record (r : scenario_record) : Prop :=
  NoDup (output r).*1 ∧
  NoDup (scenario_vals r).*1 ∧
  Forall (λ v, array_len v = Some (replications r)) (output r).*2 ∧
  Forall (λ v, array_len v = None) (scenario_vals r).*2.

(** ** Python's arithmetic on [int], [bool] and [float]

    The instance of the arithmetic protocol for the built-in numbers:
    integers are exact, floats are binary64, an integer meets a float as
    the nearest float, and true division of integers is correctly rounded. *)

Module PyNumber.
Inductive number : Type :=
| NInt (z : Z)
| NFloat (x : float).

Definition number_of (v : value) : res number :=
  match v with
  | VBool b => Ok (NInt (Z.b2z b))
  | VInt z => Ok (NInt z)
  | VFloat x => Ok (NFloat x)
  | _ => Raise TypeError
  end.

Definition is_finite (x : float) : bool :=
  match Prim2SF x with
  | S754_zero _ | S754_finite _ _ _ => true
  | _ => false
  end.

(** [float(z)]: the nearest float, or [OverflowError] beyond the range. *)
Definition float_of_int (z : Z) : res float :=
  let x := SF2Prim (binary_normalize prec emax z 0 false) in
  if is_finite x then Ok x else Raise OverflowError.

Definition to_float (n : number) : res float :=
  match n with
  | NInt z => float_of_int z
  | NFloat x => Ok x
  end.

Definition sf_of_int (z : Z) : spec_float :=
  match z with
  | Z0 => S754_zero false
  | Zpos p => S754_finite false p 0
  | Zneg p => S754_finite true p 0
  end.

Definition binop (fz : Z → Z → Z) (ff : float → float → float)
    (v w : value) : res value :=
  n ← number_of v;
  m ← number_of w;
  match n, m with
  | NInt a, NInt b => Ok (VInt (fz a b))
  | _, _ => x ← to_float n; y ← to_float m; Ok (VFloat (ff x y))
  end.

Definition truediv (v w : value) : res value :=
  n ← number_of v;
  m ← number_of w;
  match n, m with
  | NInt a, NInt b =>
      if decide (b = 0) then Raise ZeroDivisionError
      else
        let q := SF2Prim (SFdiv prec emax (sf_of_int a) (sf_of_int b)) in
        if is_finite q then Ok (VFloat q) else Raise OverflowError
  | _, _ =>
      x ← to_float n;
      y ← to_float m;
      if PrimFloat.eqb y 0 then Raise ZeroDivisionError
      else Ok (VFloat (PrimFloat.div x y))
  end.

(** The exact order of an integer and a float; [None] for [nan]. *)
Definition compare_int_float (a : Z) (x : float) : option comparison :=
  match Prim2SF x with
  | S754_nan => None
  | S754_infinity s => Some (if s then Gt else Lt)
  | S754_zero _ => Some (a ?= 0)
  | S754_finite s m e =>
      let mz := if s then Zneg m else Zpos m in
      Some (if decide (0 <= e)
            then a ?= mz * 2 ^ e
            else a * 2 ^ (- e) ?= mz)
  end.

Definition compare_numbers (n m : number) : option comparison :=
  match n, m with
  | NInt a, NInt b => Some (a ?= b)
  | NInt a, NFloat y => compare_int_float a y
  | NFloat x, NInt b => CompOpp <$> compare_int_float b x
  | NFloat x, NFloat y =>
      match PrimFloat.compare x y with
      | FEq => Some Eq
      | FLt => Some Lt
      | FGt => Some Gt
      | FNotComparable => None
      end
  end.

Definition relop (holds : option comparison → bool) (v w : value) : res bool :=
  n ← number_of v;
  m ← number_of w;
  Ok (holds (compare_numbers n m)).

(** [==] never raises: operands that are not both numbers are equal only
    when they are the same kind of scalar with the same content. *)
Definition eq (v w : value) : res bool :=
  match number_of v, number_of w with
  | Ok n, Ok m => Ok (bool_decide (compare_numbers n m = Some Eq))
  | _, _ =>
      match v, w with
      | VNone, VNone => Ok true
      | VStr s, VStr t => Ok (bool_decide (s = t))
      | VList _, _ | _, VList _ => Raise ValueError
      | _, _ => Ok false
      end
  end.

#[export] Instance arith : PyArith := {|
  py_add := binop Z.add PrimFloat.add;
  py_sub := binop Z.sub PrimFloat.sub;
  py_mul := binop Z.mul PrimFloat.mul;
  py_truediv := truediv;
  py_lt := relop (λ c, bool_decide (c = Some Lt));
  py_ge := relop (λ c, bool_decide (c = Some Gt ∨ c = Some Eq));
  py_eq := eq
|}.
End PyNumber.

(** ** Example models

    A model with an input [x] and the outputs [double] (twice [x]),
    [offset] ([x - 5]), [ratio] ([1 / x]) and [identity] (the input [d]);
    and a model whose output [bump] counts its own calls. *)

Module Examples.
Import PyNumber.

Definition reading (name : string) (f : value → res value) : method := λ a,
  (match a !! name with
   | Some v => f v
   | None => Raise AttributeError
   end, a).

Definition example_class : model_class := λ name,
  if decide (name = "double") then Some (reading "x" (py_mul (VInt 2)))
  else if decide (name = "offset") then Some (reading "x" (λ x, py_sub x (VInt 5)))
  else if decide (name = "ratio") then Some (reading "x" (py_truediv (VInt 1)))
  else if decide (name = "identity") then Some (reading "d" Ok)
  else None.

(** An instance constructed with [x = 0]. *)
Definition example_model : gmap string value := {[ "x" := VInt 0 ]}.

(** A model whose output [bump] changes the instance: it adds one to the
    attribute [calls] and returns the new count. *)
Definition counting_class : model_class := λ name,
  if decide (name = "bump")
  then Some (λ a,
    match a !! "calls" with
    | Some v =>
        match py_add v (VInt 1) with
        | Ok n => (Ok n, <["calls" := n]> a)
        | Raise e => (Raise e, a)
        end
    | None => (Raise AttributeError, a)
    end)
  else None.

(** An instance constructed with [x = 0] and no call counted. *)
Definition counting_model : gmap string value :=
  {[ "x" := VInt 0; "calls" := VInt 0 ]}.
End Examples.

(** ** Runs that differ in the heap only *)

(** Two outcomes agree: both return, with related values, or both raise
    the same exception. *)
Definition res_rel {A B} (R : A → B → Prop) (r1 : res A) (r2 : res B) : Prop :=
  match r1, r2 with
  | Ok x, Ok y => R x y
  | Raise e1, Raise e2 => e1 = e2
  | _, _ => False
  end.

(** Started on objects [c1] and [c2] that have the same attributes, the
    two computations write to those objects only, leave them with the same
    attributes again, and agree on the outcome. *)
Definition same_run {A B} (R : A → B → Prop) (c1 c2 : loc)
    (m1 : M A) (m2 : M B) : Prop :=
  ∀ h1 h2 a, h1 !! c1 = Some a → h2 !! c2 = Some a →
    ∃ a', (m1 h1).2 = <[c1 := a']> h1 ∧ (m2 h2).2 = <[c2 := a']> h2 ∧
          res_rel R (m1 h1).1 (m2 h2).1.

(** What a record holds by value: everything but the reference
    [scenario_base_vals]. *)
Definition record_data (r : scenario_record) : Z * pydict value * pydict value :=
  (scenario_num r, scenario_vals r, output r).

(** ** [Model.__str__] *)

(** The dictionary [__str__] formats: the instance attributes whose name
    does not start with an underscore.  The test [key[0]] raises
    [IndexError] on an attribute whose name is the empty string. *)
Definition public_name (key : string) : bool :=
  match key with
  | String c _ => negb (bool_decide (String c EmptyString = "_"))
  | EmptyString => true
  end.

Definition str_items (a : gmap string value) : res (gmap string value) :=
  if decide (is_Some (a !! EmptyString)) then Raise IndexError
  else Ok (filter (λ kv, public_name kv.1 = true) a).

(** * Properties *)

Local Open Scope nat_scope.

(** ** Dictionaries *)

Section Dict.
Context {V : Type}.
Implicit Types (d : pydict V) (k : string) (v : V).

Lemma dict_set_fresh k v d : k ∉ d.*1 → dict_set k v d = d ++ [(k, v)].
Proof.
  induction d as [|[k' v'] d IH]; simpl; [done|].
  intros Hk. apply not_elem_of_cons in Hk as [Hne Hk].
  destruct (decide (k = k')); [done|]. by rewrite IH.
Qed.

Lemma dict_update_fresh d1 d2 : NoDup (d1.*1 ++ d2.*1) → dict_update d1 d2 = d1 ++ d2.
Proof.
  unfold dict_update. revert d1.
  induction d2 as [|[k v] d2 IH]; intros d1 Hnd; simpl.
  - by rewrite app_nil_r.
  - simpl in Hnd. rewrite dict_set_fresh.
    + rewrite IH; [by rewrite <- app_assoc|].
      rewrite fmap_app; simpl. by rewrite <- app_assoc.
    + apply NoDup_app in Hnd as (_ & Hd & _). intros Hin.
      apply (Hd k Hin). left.
Qed.

Lemma dict_of_pairs_nodup d : NoDup d.*1 → dict_of_pairs d = d.
Proof. intros Hnd. by apply (dict_update_fresh []). Qed.

Lemma dict_get_set_eq k v d : dict_get k (dict_set k v d) = Some v.
Proof.
  induction d as [|[k' v'] d IH]; simpl.
  - by rewrite decide_True.
  - destruct (decide (k = k')) as [->|Hne]; simpl.
    + by rewrite decide_True.
    + by rewrite decide_False.
Qed.

Lemma dict_get_set_ne k k' v d : k ≠ k' → dict_get k' (dict_set k v d) = dict_get k' d.
Proof.
  intros Hne. induction d as [|[k0 v0] d IH]; simpl.
  - by rewrite decide_False.
  - destruct (decide (k = k0)) as [->|Hne0]; simpl.
    + by rewrite !decide_False.
    + destruct (decide (k' = k0)); [done|apply IH].
Qed.

Lemma dict_set_keys_in k v d : k ∈ d.*1 → (dict_set k v d).*1 = d.*1.
Proof.
  induction d as [|[k' v'] d IH]; csimpl; [by intros ?%elem_of_nil|].
  intros Hin. destruct (decide (k = k')) as [->|Hne]; csimpl; [done|].
  apply elem_of_cons in Hin as [?|Hin]; [done|]. by rewrite IH.
Qed.

Lemma dict_get_None k d : dict_get k d = None ↔ k ∉ d.*1.
Proof.
  induction d as [|[k' v'] d IH]; simpl.
  - split; [intros _; apply not_elem_of_nil|done].
  - destruct (decide (k = k')) as [->|Hne].
    + split; [done|]. intros []. left.
    + rewrite IH, not_elem_of_cons. tauto.
Qed.

Lemma dict_get_lookup d j k v : NoDup d.*1 → d !! j = Some (k, v) → dict_get k d = Some v.
Proof.
  revert j. induction d as [|[k' v'] d IH]; intros j Hnd Hj; [done|].
  simpl in *. apply NoDup_cons in Hnd as [Hk' Hnd].
  destruct j as [|j]; simpl in Hj.
  - injection Hj as -> ->. by rewrite decide_True.
  - destruct (decide (k = k')) as [->|Hne]; [|by eapply IH].
    exfalso. apply Hk'. apply list_elem_of_fmap. exists (k', v). split; [done|].
    by eapply list_elem_of_lookup_2.
Qed.
End Dict.

(** ** The scenario grid *)

Section Product.
Context {A : Type}.
Implicit Types (pools : list (list A)) (pool : list A).

Lemma product_length pools : length (product pools) = pools_size pools.
Proof.
  induction pools as [|pool rest IH]; simpl; [done|].
  rewrite <- IH. generalize (product rest) as P. intros P.
  induction pool as [|x pool IHp]; simpl; [done|].
  by rewrite length_app, length_map, IHp.
Qed.

Lemma product_elem_length pools t : t ∈ product pools → length t = length pools.
Proof.
  revert t. induction pools as [|pool rest IH]; simpl; intros t Ht.
  - apply list_elem_of_singleton in Ht. by subst.
  - apply list_elem_of_In, in_flat_map in Ht as (x & _ & Ht).
    apply in_map_iff in Ht as (t' & <- & Ht'). simpl. f_equal.
    apply IH. by apply list_elem_of_In.
Qed.

(** In a block of [m] tuples per head element, position [i] has the head
    number [i / m] and the tail number [i mod m]. *)
Lemma flat_map_cons_lookup pool (P : list (list A)) i :
  0 < length P →
  flat_map (λ x, map (cons x) P) pool !! i =
    x ← pool !! (i / length P); t ← P !! (i mod length P); Some (x :: t).
Proof.
  intros Hm. revert i. induction pool as [|x pool IH]; intros i; simpl.
  - done.
  - destruct (decide (i < length P)) as [Hlt|Hge].
    + rewrite lookup_app_l by (by rewrite length_map).
      rewrite Nat.div_small, Nat.mod_small by done. simpl.
      rewrite list_lookup_fmap. by destruct (P !! i).
    + rewrite lookup_app_r by (rewrite length_map; lia).
      rewrite length_map, IH.
      assert (Hd : i / length P = S ((i - length P) / length P)).
      { replace i with ((i - length P) + 1 * length P) at 1 by lia.
        rewrite Nat.div_add by lia. lia. }
      assert (Hmo : i mod length P = (i - length P) mod length P).
      { replace i with ((i - length P) + 1 * length P) at 1 by lia.
        by rewrite Nat.Div0.mod_add. }
      by rewrite Hd, Hmo.
Qed.

(** Position [i] of the product holds, for the [j]-th pool, the element
    whose number is [i] divided by the size of the later pools, modulo the
    length of the pool. *)
Lemma product_lookup_mod pools i :
  0 < pools_size pools →
  ∃ t, product pools !! (i mod pools_size pools) = Some t ∧
    ∀ j pool, pools !! j = Some pool →
      ∃ v, t !! j = Some v ∧
        pool !! ((i / pools_size (drop (S j) pools)) mod length pool) = Some v.
Proof.
  revert i. induction pools as [|pool rest IH]; intros i Hpos; simpl in *.
  - exists []. split; [done|]. by intros j pool ?.
  - assert (Hl : 0 < length pool) by nia.
    assert (Hr : 0 < pools_size rest) by nia.
    destruct (IH i Hr) as (t & Ht & Hcomp).
    set (m := pools_size rest) in *.
    assert (Hhd : (i mod (length pool * m)) / m = (i / m) mod length pool).
    { rewrite (Nat.mul_comm (length pool)), Nat.Div0.mod_mul_r.
      rewrite (Nat.mul_comm m), Nat.div_add by lia.
      rewrite (Nat.div_small (i mod m)); [done|]. apply Nat.mod_upper_bound. lia. }
    assert (Htl : (i mod (length pool * m)) mod m = i mod m).
    { rewrite (Nat.mul_comm (length pool)), Nat.Div0.mod_mul_r.
      rewrite (Nat.mul_comm m), Nat.Div0.mod_add. apply Nat.Div0.mod_mod. }
    destruct (lookup_lt_is_Some_2 pool ((i / m) mod length pool)) as [x Hx].
    { apply Nat.mod_upper_bound. lia. }
    exists (x :: t). split.
    + rewrite flat_map_cons_lookup by (rewrite product_length; done).
      rewrite product_length. fold m. rewrite Hhd, Htl, Hx. simpl. by rewrite Ht.
    + intros [|j] pool' Hj; simpl in *.
      * injection Hj as <-. exists x. split; [done|]. by rewrite drop_0.
      * by apply Hcomp.
Qed.
End Product.

Lemma grid_size_pools {V} (si : pydict (list V)) : grid_size si = pools_size si.*2.
Proof. induction si as [|[k vs] si IH]; simpl; [done|]. by rewrite IH. Qed.

Lemma stride_pools {V} (si : pydict (list V)) j :
  stride si j = pools_size (drop (S j) si.*2).
Proof. unfold stride. by rewrite grid_size_pools, fmap_drop. Qed.

Lemma create_parameter_grid_nonempty (scenario_inputs : pydict (list value)) :
  scenario_inputs ≠ [] →
  create_parameter_grid scenario_inputs =
    Ok ((λ v, dict_of_pairs (zip scenario_inputs.*1 v)) <$> product scenario_inputs.*2).
Proof. by destruct scenario_inputs. Qed.

(** C2. For a non-empty mapping with distinct keys, [create_parameter_grid]
    returns a grid whose length is the product of the lengths of the
    candidate sequences; the assignment at position [i] has exactly the keys
    of the mapping, in its order, and gives the [j]-th key the candidate
    number [(i / stride j) mod length], the row-major order in which the
    last-declared input cycles fastest. *)
Theorem create_parameter_grid_row_major (scenario_inputs : pydict (list value)) :
  scenario_inputs ≠ [] →
  NoDup scenario_inputs.*1 →
  Forall (λ kv, kv.2 ≠ []) scenario_inputs →
  ∃ grid,
    create_parameter_grid scenario_inputs = Ok grid ∧
    length grid = grid_size scenario_inputs ∧
    0 < length grid ∧
    ∀ i, i < grid_size scenario_inputs →
      ∃ asg,
        grid !! i = Some asg ∧
        asg.*1 = scenario_inputs.*1 ∧
        ∀ j key vs, scenario_inputs !! j = Some (key, vs) →
          ∃ v, asg !! j = Some (key, v) ∧
               vs !! ((i / stride scenario_inputs j) mod length vs) = Some v.
Proof.
  intros Hne Hnd Hvs.
  exists ((λ v, dict_of_pairs (zip scenario_inputs.*1 v)) <$> product scenario_inputs.*2).
  split; [by apply create_parameter_grid_nonempty|].
  assert (Hlen : length ((λ v, dict_of_pairs (zip scenario_inputs.*1 v))
                           <$> product scenario_inputs.*2) = grid_size scenario_inputs).
  { by rewrite length_fmap, product_length, grid_size_pools. }
  assert (Hpos : 0 < grid_size scenario_inputs).
  { clear Hne Hnd Hlen. induction Hvs as [|[k vs] si Hk _ IH]; simpl in *; [lia|].
    destruct vs; [done|]. simpl. lia. }
  split; [done|]. split; [lia|].
  intros i Hi.
  destruct (product_lookup_mod scenario_inputs.*2 i) as (t & Ht & Hcomp).
  { by rewrite <- grid_size_pools. }
  rewrite <- grid_size_pools, Nat.mod_small in Ht by done.
  assert (Htl : length t = length scenario_inputs.*1).
  { rewrite (product_elem_length scenario_inputs.*2 t), !length_fmap; [done|].
    by eapply list_elem_of_lookup_2. }
  assert (Hfst : (zip scenario_inputs.*1 t).*1 = scenario_inputs.*1).
  { apply fst_zip. lia. }
  exists (zip scenario_inputs.*1 t). split; [|split; [done|]].
  - rewrite list_lookup_fmap, Ht. simpl. f_equal.
    apply dict_of_pairs_nodup. by rewrite Hfst.
  - intros j key vs Hj.
    destruct (Hcomp j vs) as (v & Hv & Hsel).
    { by rewrite list_lookup_fmap, Hj. }
    exists v. split; [|by rewrite stride_pools].
    apply lookup_zip_with_Some. exists key, v. split; [done|]. split; [|done].
    by rewrite list_lookup_fmap, Hj.
Qed.

Lemma create_parameter_grid_row_major_witness :
  let scenario_inputs :=
    [("a", [VInt 1; VInt 2]); ("b", [VInt 3; VInt 4; VInt 5])] in
  ∃ grid,
    create_parameter_grid scenario_inputs = Ok grid ∧
    length grid = grid_size scenario_inputs ∧
    0 < length grid ∧
    ∀ i, i < grid_size scenario_inputs →
      ∃ asg,
        grid !! i = Some asg ∧
        asg.*1 = scenario_inputs.*1 ∧
        ∀ j key vs, scenario_inputs !! j = Some (key, vs) →
          ∃ v, asg !! j = Some (key, v) ∧
               vs !! ((i / stride scenario_inputs j) mod length vs) = Some v.
Proof.
  intros scenario_inputs. apply (create_parameter_grid_row_major scenario_inputs).
  - discriminate.
  - apply NoDup_cons. split; [|apply NoDup_singleton].
    intros Hin%list_elem_of_singleton. discriminate.
  - repeat constructor; discriminate.
Defined.

(** The grid of two inputs with two and three candidates: the last input
    cycles fastest. *)
Example create_parameter_grid_example :
  create_parameter_grid [("a", [VInt 1; VInt 2]); ("b", [VInt 3; VInt 4; VInt 5])] =
  Ok [ [("a", VInt 1); ("b", VInt 3)]; [("a", VInt 1); ("b", VInt 4)];
       [("a", VInt 1); ("b", VInt 5)]; [("a", VInt 2); ("b", VInt 3)];
       [("a", VInt 2); ("b", VInt 4)]; [("a", VInt 2); ("b", VInt 5)] ].
Proof. reflexivity. Qed.

(** ** Clone isolation *)

Section Isolation.
Context (c : loc).

Lemma bind_run {A B} (m : M A) (k : A → M B) h :
  (m ≫= k) h =
    match m h with
    | (Ok a, h') => k a h'
    | (Raise e, h') => (Raise e, h')
    end.
Proof. reflexivity. Qed.

Lemma bind_run_ok {A B} (m : M A) (k : A → M B) h a h' :
  m h = (Ok a, h') → (m ≫= k) h = k a h'.
Proof. intros Hm. by rewrite bind_run, Hm. Qed.

Lemma bind_run_raise {A B} (m : M A) (k : A → M B) h e h' :
  m h = (Raise e, h') → (m ≫= k) h = (Raise e, h').
Proof. intros Hm. by rewrite bind_run, Hm. Qed.

Lemma writes_only_unchanged {A} (m : M A) : (∀ h, (m h).2 = h) → writes_only c m.
Proof.
  intros Hm h Hc. destruct (lookup_lt_is_Some_2 h c Hc) as [a Ha].
  exists a. by rewrite Hm, list_insert_id.
Qed.

Lemma writes_only_ret {A} (a : A) : writes_only c (mret a).
Proof. by apply writes_only_unchanged. Qed.

Lemma writes_only_lift {A} (r : res A) : writes_only c (lift r).
Proof. by apply writes_only_unchanged. Qed.

Lemma writes_only_bind {A B} (m : M A) (k : A → M B) :
  writes_only c m → (∀ a, writes_only c (k a)) → writes_only c (m ≫= k).
Proof.
  intros Hm Hk h Hc. rewrite bind_run.
  destruct (Hm h Hc) as [a1 H1]. destruct (m h) as [[a|e] h1]; simpl in *; subst h1.
  - destruct (Hk a (<[c:=a1]> h)) as [a2 H2]; [by rewrite length_insert|].
    exists a2. by rewrite H2, list_insert_insert_eq.
  - by exists a1.
Qed.

Lemma writes_only_for_loop {A S} (xs : list A) (body : A → S → M S) s :
  (∀ x s, writes_only c (body x s)) → writes_only c (for_loop xs body s).
Proof.
  intros Hbody. revert s. induction xs as [|x xs IH]; intros s; simpl.
  - apply writes_only_ret.
  - apply writes_only_bind; [apply Hbody|apply IH].
Qed.

Lemma writes_only_setattr key v : writes_only c (setattr c key v).
Proof.
  intros h Hc. destruct (lookup_lt_is_Some_2 h c Hc) as [a Ha].
  exists (<[key:=v]> a). simpl.
  apply list_eq. intros i. destruct (decide (i = c)) as [->|Hne].
  - by rewrite list_lookup_alter_eq, list_lookup_insert_eq, Ha.
  - by rewrite list_lookup_alter_ne, list_lookup_insert_ne.
Qed.

Lemma writes_only_call_method cls name : writes_only c (call_method cls c name).
Proof.
  intros h Hc. unfold call_method.
  destruct (invoke cls name (attrs_at h c)) as [r a']. by exists a'.
Qed.

Lemma writes_only_update params : writes_only c (update c params).
Proof.
  apply writes_only_for_loop. intros [key v] []. apply writes_only_setattr.
Qed.

Lemma writes_only_eval_outputs cls outputs acc :
  writes_only c (eval_outputs cls c outputs acc).
Proof.
  apply writes_only_for_loop. intros x s.
  apply writes_only_bind; [apply writes_only_call_method|intros; apply writes_only_ret].
Qed.

Lemma writes_only_bisection_loop `{PyArith} cls obj_fn target by_changing n a b :
  writes_only c (bisection_loop cls c obj_fn target by_changing n a b).
Proof.
  revert a b. induction n as [|n IH]; intros a b; simpl.
  - apply writes_only_lift.
  - repeat first
      [ apply writes_only_bind; [|intros ?]
      | apply writes_only_lift | apply writes_only_setattr
      | apply writes_only_call_method | apply writes_only_ret
      | apply IH | case_match ].
Qed.
End Isolation.

(** A driver that clones first and then writes to the clone only leaves
    the heap it started from with one new object on top. *)
Lemma clone_then_write {A} (self : loc) (rest : loc → M A) h :
  (∀ c, writes_only c (rest c)) →
  ∃ a', ((deepcopy self ≫= rest) h).2 = h ++ [a'].
Proof.
  intros Hrest. rewrite bind_run. simpl.
  destruct (Hrest (length h) (h ++ [attrs_at h self])) as [a' Ha'].
  { rewrite length_app. simpl. lia. }
  exists a'. rewrite Ha'.
  replace (length h) with (length h + 0) at 1 by lia.
  by rewrite insert_app_r.
Qed.

Lemma data_table_writes cls self scenario_inputs outputs h :
  ∃ a', (data_table cls self scenario_inputs outputs h).2 = h ++ [a'].
Proof.
  apply clone_then_write. intros c.
  apply writes_only_bind; [apply writes_only_lift|intros grid].
  apply writes_only_bind; [|intros; apply writes_only_ret].
  apply writes_only_for_loop. intros params results.
  apply writes_only_bind; [apply writes_only_update|intros _].
  apply writes_only_bind; [apply writes_only_eval_outputs|intros; apply writes_only_ret].
Qed.

Lemma goal_seek_writes `{PyArith} cls self obj_fn target by_changing a b N h :
  ∃ a', (goal_seek cls self obj_fn target by_changing a b N h).2 = h ++ [a'].
Proof.
  apply clone_then_write. intros c.
  repeat first
    [ apply writes_only_bind; [|intros ?]
    | apply writes_only_lift | apply writes_only_setattr
    | apply writes_only_call_method | apply writes_only_ret
    | apply writes_only_bisection_loop | case_match ].
Qed.

Lemma simulate_writes cls self random_inputs outputs scenario_inputs keep h :
  ∃ a', (simulate cls self random_inputs outputs scenario_inputs keep h).2 = h ++ [a'].
Proof.
  apply clone_then_write. intros c.
  apply writes_only_bind; [apply writes_only_update|intros _].
  apply writes_only_bind; [destruct keep; apply writes_only_ret|intros base].
  destruct scenario_inputs as [si|].
  - apply writes_only_bind; [apply writes_only_lift|intros grid].
    apply writes_only_bind; [|intros; apply writes_only_ret].
    apply writes_only_for_loop. intros params [num results].
    apply writes_only_bind; [apply writes_only_update|intros _].
    apply writes_only_bind; [apply writes_only_eval_outputs|intros; apply writes_only_ret].
  - apply writes_only_bind; [apply writes_only_eval_outputs|intros; apply writes_only_ret].
Qed.

(** C1. Whatever the model class, the arguments and the outcome (a result
    or an exception), each of the three drivers leaves every attribute of
    the caller's model as it was: the heap after the call is the heap before
    it with one new object, the clone, on top. *)
Theorem drivers_leave_original_unchanged `{PyArith}
    (cls : model_class) (self : loc) (h : heap) (a : gmap string value)
    (scenario_inputs : pydict (list value)) (outputs : list string)
    (random_inputs : pydict value) (grid : option (pydict (list value)))
    (keep_random_inputs : bool)
    (obj_fn by_changing : string) (target lo hi : value) (N : Z) :
  h !! self = Some a →
  let h_dt := (data_table cls self scenario_inputs outputs h).2 in
  let h_sim := (simulate cls self random_inputs outputs grid keep_random_inputs h).2 in
  let h_gs := (goal_seek cls self obj_fn target by_changing lo hi N h).2 in
  (h_dt !! self = Some a ∧ ∃ clone, h_dt = h ++ [clone]) ∧
  (h_sim !! self = Some a ∧ ∃ clone, h_sim = h ++ [clone]) ∧
  (h_gs !! self = Some a ∧ ∃ clone, h_gs = h ++ [clone]).
Proof.
  intros Hself. simpl.
  destruct (data_table_writes cls self scenario_inputs outputs h) as [a1 ->].
  destruct (simulate_writes cls self random_inputs outputs grid keep_random_inputs h)
    as [a2 ->].
  destruct (goal_seek_writes cls self obj_fn target by_changing lo hi N h) as [a3 ->].
  pose proof (lookup_lt_Some _ _ _ Hself) as Hlt.
  rewrite !lookup_app_l by done. eauto 10.
Qed.

(** ** Degenerate grids *)

Lemma product_empty_pool {A} (pools : list (list A)) : [] ∈ pools → product pools = [].
Proof.
  induction pools as [|pool rest IH]; intros Hin.
  - by apply elem_of_nil in Hin.
  - simpl. apply elem_of_cons in Hin as [<-|Hin]; [done|].
    rewrite IH by done. by induction pool.
Qed.

(** C8. On the empty mapping [create_parameter_grid] raises [ValueError]:
    the transposition of no items cannot be unpacked into keys and values. *)
Theorem create_parameter_grid_empty_mapping :
  create_parameter_grid [] = Raise ValueError.
Proof. reflexivity. Qed.

(** C9, as stated, fails: a mapping whose only key has no candidate value
    yields the empty grid, not a [ConfigurationError]. *)
Lemma create_parameter_grid_no_configuration_error :
  (∃ key, (key, []) ∈ [("x", @nil value)]) ∧
  create_parameter_grid [("x", [])] = Ok [] ∧
  create_parameter_grid [("x", [])] ≠ Raise ConfigurationError.
Proof. split; [exists "x"; left|]. split; [reflexivity|discriminate]. Qed.

(** C9, amended. For a non-empty mapping in which some key has no candidate
    value, [create_parameter_grid] raises nothing and returns the empty
    grid. *)
Theorem create_parameter_grid_empty_candidates
    (scenario_inputs : pydict (list value)) (key : string) :
  (key, []) ∈ scenario_inputs →
  create_parameter_grid scenario_inputs = Ok [].
Proof.
  intros Hin.
  assert (Hp : product scenario_inputs.*2 = []).
  { apply product_empty_pool, list_elem_of_fmap. by exists (key, []). }
  rewrite create_parameter_grid_nonempty, Hp; [done|].
  intros ->. by apply elem_of_nil in Hin.
Qed.

Lemma create_parameter_grid_empty_candidates_witness :
  create_parameter_grid [("x", [VInt 1; VInt 2]); ("y", [])] = Ok [].
Proof.
  apply (create_parameter_grid_empty_candidates _ "y").
  right. left.
Defined.

(** ** Exceptions of output operations *)

Lemma for_loop_app {A S} (xs ys : list A) (body : A → S → M S) s h :
  for_loop (xs ++ ys) body s h =
    match for_loop xs body s h with
    | (Ok s', h') => for_loop ys body s' h'
    | (Raise e, h') => (Raise e, h')
    end.
Proof.
  revert s h. induction xs as [|x xs IH]; intros s h; simpl; [done|].
  rewrite !bind_run. destruct (body x s h) as [[s'|e] h']; [apply IH|done].
Qed.

(** A loop stops with the exception of the first body that raises. *)
Lemma for_loop_raise {A S} (pre post : list A) x (body : A → S → M S) s s' h h1 h2 e :
  for_loop pre body s h = (Ok s', h1) →
  body x s' h1 = (Raise e, h2) →
  for_loop (pre ++ x :: post) body s h = (Raise e, h2).
Proof.
  intros Hpre Hx. rewrite for_loop_app, Hpre. simpl. by rewrite bind_run, Hx.
Qed.

Lemma eval_outputs_raise cls c outputs acc h o e h' :
  first_failure cls c outputs acc h o e h' →
  eval_outputs cls c outputs acc h = (Raise e, h').
Proof.
  intros (before & after & acc' & h1 & -> & Hbefore & Ho).
  unfold eval_outputs in *. eapply for_loop_raise; [exact Hbefore|].
  by apply bind_run_raise.
Qed.

Lemma update_run c params h :
  update c params h = (Ok (), (update c params h).2).
Proof.
  unfold update. revert h. induction params as [|[k v] params IH]; intros h; simpl; [done|].
  rewrite bind_run. simpl. apply IH.
Qed.

Lemma vars_run (keep : bool) c self h :
  (if keep then vars c else vars self) h = (Ok (if keep then c else self), h).
Proof. by destruct keep. Qed.

(** C10, as stated, fails: an output that raises [ZeroDivisionError] makes
    [data_table] and [simulate] raise that very exception, not a
    [ModelEvaluationError] carrying the scenario index and the output name. *)
Lemma output_failure_not_wrapped :
  let cls : model_class := λ name,
    if decide (name = "ratio") then Some (λ a, (Raise ZeroDivisionError, a)) else None in
  (data_table cls 0 [("x", [VInt 1])] ["ratio"] [∅]).1 = Raise ZeroDivisionError ∧
  (simulate cls 0 [] ["ratio"] None false [∅]).1 = Raise ZeroDivisionError ∧
  (simulate cls 0 [] ["ratio"] (Some [("x", [VInt 1])]) false [∅]).1
    = Raise ZeroDivisionError ∧
  ∀ cause,
    (data_table cls 0 [("x", [VInt 1])] ["ratio"] [∅]).1
      ≠ Raise (ModelEvaluationError 0 "ratio" cause) ∧
    (simulate cls 0 [] ["ratio"] None false [∅]).1
      ≠ Raise (ModelEvaluationError 0 "ratio" cause) ∧
    (simulate cls 0 [] ["ratio"] (Some [("x", [VInt 1])]) false [∅]).1
      ≠ Raise (ModelEvaluationError 0 "ratio" cause).
Proof.
  intros cls.
  assert (H1 : (data_table cls 0 [("x", [VInt 1])] ["ratio"] [∅]).1
                = Raise ZeroDivisionError) by (vm_compute; reflexivity).
  assert (H2 : (simulate cls 0 [] ["ratio"] None false [∅]).1
                = Raise ZeroDivisionError) by (vm_compute; reflexivity).
  assert (H3 : (simulate cls 0 [] ["ratio"] (Some [("x", [VInt 1])]) false [∅]).1
                = Raise ZeroDivisionError) by (vm_compute; reflexivity).
  rewrite H1, H2, H3. repeat split; discriminate.
Qed.

(** C10, amended. When the scenarios before scenario [params] complete and,
    in that scenario, output [o] is the first to raise, with exception [e],
    [data_table] and [simulate] stop there and raise [e] itself, unwrapped;
    [simulate] without a scenario grid does so for its single scenario.  No
    result is returned. *)
Theorem output_failure_propagates (cls : model_class) (self : loc) (h : heap)
    (outputs : list string) (o : string) (e : exn) :
  let c := length h in
  let h0 := h ++ [attrs_at h self] in
  (∀ scenario_inputs pre params post results h1 h2,
      create_parameter_grid scenario_inputs = Ok (pre ++ params :: post) →
      for_loop pre (data_table_scenario cls c outputs) [] h0 = (Ok results, h1) →
      first_failure cls c outputs params (update c params h1).2 o e h2 →
      data_table cls self scenario_inputs outputs h = (Raise e, h2)) ∧
  (∀ random_inputs keep scenario_inputs pre params post st h1 h2,
      create_parameter_grid scenario_inputs = Ok (pre ++ params :: post) →
      for_loop pre
        (simulate_scenario cls c outputs (if keep : bool then c else self))
        (0%Z, []) (update c random_inputs h0).2 = (Ok st, h1) →
      first_failure cls c outputs [] (update c params h1).2 o e h2 →
      simulate cls self random_inputs outputs (Some scenario_inputs) keep h
        = (Raise e, h2)) ∧
  (∀ random_inputs keep h2,
      first_failure cls c outputs [] (update c random_inputs h0).2 o e h2 →
      simulate cls self random_inputs outputs None keep h = (Raise e, h2)).
Proof.
  intros c h0. split; [|split].
  - intros si pre params post results h1 h2 Hgrid Hpre Hfail.
    unfold data_table.
    erewrite bind_run_ok by reflexivity.
    erewrite bind_run_ok by (unfold lift; by rewrite Hgrid).
    apply bind_run_raise. eapply for_loop_raise; [exact Hpre|].
    unfold data_table_scenario.
    erewrite bind_run_ok by apply update_run.
    apply bind_run_raise. by eapply eval_outputs_raise.
  - intros random_inputs keep si pre params post st h1 h2 Hgrid Hpre Hfail.
    unfold simulate.
    erewrite bind_run_ok by reflexivity.
    erewrite bind_run_ok by apply update_run.
    erewrite bind_run_ok by apply vars_run.
    erewrite bind_run_ok by (unfold lift; by rewrite Hgrid).
    apply bind_run_raise. eapply for_loop_raise; [exact Hpre|].
    unfold simulate_scenario.
    erewrite bind_run_ok by apply update_run.
    apply bind_run_raise. by eapply eval_outputs_raise.
  - intros random_inputs keep h2 Hfail.
    unfold simulate.
    erewrite bind_run_ok by reflexivity.
    erewrite bind_run_ok by apply update_run.
    erewrite bind_run_ok by apply vars_run.
    apply bind_run_raise. by eapply eval_outputs_raise.
Qed.

Lemma output_failure_propagates_witness :
  (∃ h2, data_table Examples.example_class 0 [("x", [VInt 1; VInt 0])]
           ["ratio"] [Examples.example_model]
         = (Raise ZeroDivisionError, h2)) ∧
  (∃ h2, simulate Examples.example_class 0 [] ["ratio"]
           (Some [("x", [VInt 0])]) true [Examples.example_model]
         = (Raise ZeroDivisionError, h2)) ∧
  (∃ h2, simulate Examples.example_class 0 [] ["ratio"] None false
           [Examples.example_model]
         = (Raise ZeroDivisionError, h2)).
Proof.
  pose proof (output_failure_propagates Examples.example_class 0
                [Examples.example_model] ["ratio"] "ratio"
                ZeroDivisionError) as (Hdt & Hsim & Hone).
  split; [|split].
  - eexists.
    eapply (Hdt [("x", [VInt 1; VInt 0])] [[("x", VInt 1)]] [("x", VInt 0)] []).
    + reflexivity.
    + vm_compute. reflexivity.
    + exists [], []. eexists _, _. split; [reflexivity|].
      split; [reflexivity|]. vm_compute. reflexivity.
  - eexists.
    eapply (Hsim [] true [("x", [VInt 0])] [] [("x", VInt 0)] []).
    + reflexivity.
    + reflexivity.
    + exists [], []. eexists _, _. split; [reflexivity|].
      split; [reflexivity|]. vm_compute. reflexivity.
  - eexists. eapply (Hone [] false).
    exists [], []. eexists _, _. split; [reflexivity|].
    split; [reflexivity|]. vm_compute. reflexivity.
Defined.

(** ** Running the drivers on read-only outputs *)

Lemma invoke_read_only cls o a : read_only cls o → (invoke cls o a).2 = a.
Proof.
  intros Hro. unfold invoke. destruct (a !! o); [done|].
  destruct (cls o) as [m|] eqn:Hm; [by apply Hro|done].
Qed.

Lemma call_method_read_only cls c o h a :
  read_only cls o → h !! c = Some a →
  call_method cls c o h = ((invoke cls o a).1, h).
Proof.
  intros Hro Hc. unfold call_method, attrs_at. rewrite Hc. simpl.
  pose proof (invoke_read_only cls o a Hro) as Hinv.
  destruct (invoke cls o a) as [r a']. simpl in *. subst a'.
  by rewrite list_insert_id.
Qed.

Lemma update_updated c params h a :
  h !! c = Some a → update c params h = (Ok (), <[c := updated a params]> h).
Proof.
  unfold update, updated. revert h a.
  induction params as [|[k v] params IH]; intros h a Hc; simpl.
  - by rewrite list_insert_id.
  - pose proof (lookup_lt_Some _ _ _ Hc) as Hlt.
    erewrite bind_run_ok by reflexivity.
    rewrite (IH _ (<[k:=v]> a)).
    + f_equal. apply list_eq. intros i. destruct (decide (i = c)) as [->|Hne].
      * rewrite !list_lookup_insert_eq; [done|done|by rewrite length_alter].
      * by rewrite !list_lookup_insert_ne, list_lookup_alter_ne.
    + by rewrite list_lookup_alter_eq, Hc.
Qed.

Lemma eval_outputs_read_only cls c outputs acc h a :
  (∀ o, o ∈ outputs → read_only cls o) →
  h !! c = Some a →
  eval_outputs cls c outputs acc h = (output_values cls a outputs acc, h).
Proof.
  intros Hro Hc. unfold eval_outputs, output_values. revert acc.
  induction outputs as [|o outputs IH]; intros acc; simpl; [done|].
  rewrite bind_run, bind_run.
  rewrite (call_method_read_only cls c o h a) by (done || apply Hro; left).
  destruct (invoke cls o a).1 as [v|e]; simpl; [|done].
  apply IH. intros o' Ho'. apply Hro. by right.
Qed.

Lemma add_names_nodup acc names : NoDup acc → NoDup (add_names acc names).
Proof.
  unfold add_names. revert acc. induction names as [|c names IH]; intros acc Hnd; simpl.
  - done.
  - apply IH. case_decide; [done|].
    apply NoDup_app. split_and!; [done| |apply NoDup_singleton].
    intros x Hx ->%list_elem_of_singleton. done.
Qed.

Lemma add_names_elem acc names x :
  x ∈ add_names acc names ↔ x ∈ acc ∨ x ∈ names.
Proof.
  unfold add_names. revert acc. induction names as [|c names IH]; intros acc; simpl.
  - rewrite elem_of_nil. tauto.
  - rewrite IH, elem_of_cons. case_decide.
    + split; [tauto|]. intros [?|[->|?]]; tauto.
    + rewrite elem_of_app, list_elem_of_singleton. tauto.
Qed.

Lemma add_names_included acc names :
  (∀ x, x ∈ names → x ∈ acc) → add_names acc names = acc.
Proof.
  unfold add_names. induction names as [|c names IH]; intros Hin; simpl; [done|].
  rewrite decide_True by (apply Hin; left). apply IH. intros x Hx. apply Hin. by right.
Qed.

Lemma add_names_app acc xs ys :
  add_names acc (xs ++ ys) = add_names (add_names acc xs) ys.
Proof. apply foldl_app. Qed.

Lemma add_names_fresh acc names :
  (∀ x, x ∈ names → x ∉ acc) →
  add_names acc names = acc ++ ordered_union names.
Proof.
  unfold ordered_union.
  assert (Hgen : ∀ acc' names, (∀ x, x ∈ names → x ∉ acc) →
            add_names (acc ++ acc') names = acc ++ add_names acc' names).
  { clear. intros acc'. unfold add_names. intros names. revert acc'.
    induction names as [|c names IH]; intros acc' Hfresh; simpl; [done|].
    assert (Hc : c ∉ acc) by (apply Hfresh; left).
    assert (Hnames : ∀ x, x ∈ names → x ∉ acc) by (intros x Hx; apply Hfresh; by right).
    destruct (decide (c ∈ acc')) as [Hin|Hnin].
    - rewrite decide_True by (apply elem_of_app; by right). by apply IH.
    - rewrite decide_False by (rewrite elem_of_app; tauto).
      rewrite <- app_assoc. by apply IH. }
  intros Hfresh. rewrite <- (app_nil_r acc) at 1. by apply Hgen.
Qed.

Section DictMore.
Context {V : Type}.
Implicit Types (d : pydict V) (k : string) (v : V).

Lemma dict_set_keys k v d :
  (dict_set k v d).*1 = if decide (k ∈ d.*1) then d.*1 else d.*1 ++ [k].
Proof.
  case_decide as Hin; [by apply dict_set_keys_in|].
  rewrite dict_set_fresh by done. by rewrite fmap_app.
Qed.

Lemma dict_set_app_r k v d1 d2 :
  k ∉ d1.*1 → dict_set k v (d1 ++ d2) = d1 ++ dict_set k v d2.
Proof.
  induction d1 as [|[k' v'] d1 IH]; csimpl; [done|].
  intros [Hne Hk]%not_elem_of_cons. rewrite decide_False by done. by rewrite IH.
Qed.

Lemma dict_get_app_r k d1 d2 :
  k ∉ d1.*1 → dict_get k (d1 ++ d2) = dict_get k d2.
Proof.
  induction d1 as [|[k' v'] d1 IH]; csimpl; [done|].
  intros [Hne Hk]%not_elem_of_cons. rewrite decide_False by done. by apply IH.
Qed.

Lemma dict_get_app_l k d1 d2 :
  k ∈ d1.*1 → dict_get k (d1 ++ d2) = dict_get k d1.
Proof.
  induction d1 as [|[k' v'] d1 IH]; csimpl; [by intros ?%elem_of_nil|].
  intros Hin. destruct (decide (k = k')); [done|].
  apply elem_of_cons in Hin as [?|Hin]; [done|]. by apply IH.
Qed.

Lemma dict_get_elem k v d : NoDup d.*1 → (k, v) ∈ d → dict_get k d = Some v.
Proof.
  intros Hnd [j Hj]%list_elem_of_lookup. by eapply dict_get_lookup.
Qed.
End DictMore.

Lemma dict_update_keys {V} (d1 d2 : pydict V) :
  (dict_update d1 d2).*1 = add_names d1.*1 d2.*1.
Proof.
  unfold dict_update, add_names. revert d1.
  induction d2 as [|[k v] d2 IH]; intros d1; csimpl; [done|].
  by rewrite IH, dict_set_keys.
Qed.

(** The outputs evaluate; their values are stored in requested order, each
    name once. *)
Lemma output_values_ok cls a outputs acc :
  (∀ o, o ∈ outputs → ∃ v, (invoke cls o a).1 = Ok v) →
  ∃ d, output_values cls a outputs acc = Ok d ∧
    d.*1 = add_names acc.*1 outputs ∧
    (∀ o, o ∈ outputs → ∃ v, dict_get o d = Some v ∧ (invoke cls o a).1 = Ok v) ∧
    (∀ k, k ∉ outputs → dict_get k d = dict_get k acc).
Proof.
  unfold output_values, add_names. revert acc.
  induction outputs as [|o outputs IH]; intros acc Hok; simpl.
  - exists acc. split_and!; [done|done| |done]. by intros o ?%elem_of_nil.
  - destruct (Hok o) as [v Hv]; [left|]. rewrite Hv. simpl.
    destruct (IH (dict_set o v acc)) as (d & Hd & Hkeys & Hvals & Hrest).
    { intros o' Ho'. apply Hok. by right. }
    exists d. split_and!; [done| | |].
    + rewrite Hkeys, dict_set_keys. done.
    + intros o' [->|Ho']%elem_of_cons; [|by apply Hvals].
      destruct (decide (o ∈ outputs)) as [Hin|Hnin]; [by apply Hvals|].
      exists v. split; [|done]. by rewrite Hrest, dict_get_set_eq.
    + intros k [Hne Hk]%not_elem_of_cons.
      rewrite Hrest by done. by apply dict_get_set_ne.
Qed.

(** C6. Without [scenario_inputs], when the requested outputs are read-only
    and evaluate on the clone with the random inputs installed, [simulate]
    returns exactly one record: its number is 0, it has no scenario values,
    and its output holds, under each requested name once and in requested
    order, the value that output returns on that clone. *)
Theorem simulate_without_scenarios (cls : model_class) (self : loc) (h : heap)
    (random_inputs : pydict value) (outputs : list string)
    (keep_random_inputs : bool) :
  let installed := updated (attrs_at h self) random_inputs in
  (∀ o, o ∈ outputs → read_only cls o) →
  (∀ o, o ∈ outputs → ∃ v, (invoke cls o installed).1 = Ok v) →
  ∃ r,
    (simulate cls self random_inputs outputs None keep_random_inputs h).1 = Ok [r] ∧
    scenario_num r = 0%Z ∧
    scenario_vals r = [] ∧
    dict_keys (output r) = ordered_union outputs ∧
    ∀ o, o ∈ outputs →
      ∃ v, dict_get o (output r) = Some v ∧ (invoke cls o installed).1 = Ok v.
Proof.
  intros installed Hro Hok.
  destruct (output_values_ok cls installed outputs [] Hok) as (d & Hd & Hkeys & Hvals & _).
  exists {| scenario_base_vals := if keep_random_inputs then length h else self;
            scenario_num := 0; scenario_vals := []; output := d |}.
  split_and!; [|done|done|done|done].
  unfold simulate.
  erewrite bind_run_ok by reflexivity.
  erewrite bind_run_ok.
  2:{ apply update_updated. by rewrite lookup_app_r, Nat.sub_diag. }
  erewrite bind_run_ok by apply vars_run.
  erewrite bind_run_ok.
  2:{ rewrite (eval_outputs_read_only _ _ _ _ _ installed); [by rewrite Hd|done|].
      apply list_lookup_insert_eq. rewrite length_app. simpl. lia. }
  done.
Qed.

(** The outputs of the example class only read the attributes. *)
Lemma example_class_read_only name : read_only Examples.example_class name.
Proof.
  intros m a. unfold Examples.example_class.
  repeat case_decide; intros [= <-] || done; reflexivity.
Qed.

Lemma simulate_without_scenarios_witness :
  ∃ r,
    (simulate Examples.example_class 0 [("d", VList [VInt 1; VInt 2; VInt 3])]
       ["identity"] None false [Examples.example_model]).1 = Ok [r] ∧
    scenario_num r = 0%Z ∧
    scenario_vals r = [] ∧
    dict_keys (output r) = ["identity"] ∧
    ∀ o, o ∈ ["identity"] →
      ∃ v, dict_get o (output r) = Some v ∧
        (invoke Examples.example_class o
           (updated Examples.example_model [("d", VList [VInt 1; VInt 2; VInt 3])])).1 = Ok v.
Proof.
  apply (simulate_without_scenarios Examples.example_class 0 [Examples.example_model]
           [("d", VList [VInt 1; VInt 2; VInt 3])] ["identity"] false).
  - intros o _. apply example_class_read_only.
  - intros o ->%list_elem_of_singleton. eexists. vm_compute. reflexivity.
Defined.

(** The example of C6: the single record's output array is the array of
    random draws. *)
Example simulate_identity_example :
  (simulate Examples.example_class 0 [("d", VList [VInt 1; VInt 2; VInt 3])]
     ["identity"] None false [Examples.example_model]).1 =
  Ok [ {| scenario_base_vals := 0; scenario_num := 0; scenario_vals := [];
          output := [("identity", VList [VInt 1; VInt 2; VInt 3])] |} ].
Proof. vm_compute. reflexivity. Qed.

(** ** The data table *)

Lemma updated_lookup_notin a params x :
  x ∉ params.*1 → updated a params !! x = a !! x.
Proof.
  unfold updated. revert a. induction params as [|[k v] params IH]; intros a; csimpl; [done|].
  intros [Hne Hx]%not_elem_of_cons. rewrite IH by done. by apply lookup_insert_ne.
Qed.

Lemma updated_lookup_in a params k v :
  NoDup params.*1 → (k, v) ∈ params → updated a params !! k = Some v.
Proof.
  unfold updated. revert a. induction params as [|[k' v'] params IH]; intros a; csimpl.
  - by intros _ ?%elem_of_nil.
  - intros [Hk' Hnd]%NoDup_cons [Heq|Hin]%elem_of_cons.
    + injection Heq as -> ->.
      pose proof (updated_lookup_notin (<[k':=v']> a) params k' Hk') as Hl.
      unfold updated in Hl. rewrite Hl. apply lookup_insert_eq.
    + by apply IH.
Qed.

Lemma updated_is_Some a params k :
  k ∈ params.*1 → is_Some (updated a params !! k).
Proof.
  unfold updated. revert a. induction params as [|[k' v'] params IH]; intros a; csimpl.
  - by intros ?%elem_of_nil.
  - intros Hin. destruct (decide (k ∈ params.*1)) as [Hp|Hp]; [by apply IH|].
    apply elem_of_cons in Hin as [->|?]; [|done].
    pose proof (updated_lookup_notin (<[k':=v']> a) params k' Hp) as Hl.
    unfold updated in Hl. rewrite Hl, lookup_insert_eq. by eexists.
Qed.

Lemma grid_assignment_keys (scenario_inputs : pydict (list value)) grid params :
  NoDup scenario_inputs.*1 →
  create_parameter_grid scenario_inputs = Ok grid →
  params ∈ grid →
  params.*1 = scenario_inputs.*1.
Proof.
  intros Hnd Hgrid Hin.
  destruct (decide (scenario_inputs = [])) as [->|Hne]; [done|].
  rewrite create_parameter_grid_nonempty in Hgrid by done. injection Hgrid as <-.
  apply list_elem_of_fmap in Hin as (t & -> & Ht).
  assert (Hfst : (zip scenario_inputs.*1 t).*1 = scenario_inputs.*1).
  { apply fst_zip. rewrite (product_elem_length _ _ Ht), !length_fmap. done. }
  rewrite dict_of_pairs_nodup; [done|]. by rewrite Hfst.
Qed.

Lemma add_names_nodup_app acc ks : NoDup (acc ++ ks) → add_names acc ks = acc ++ ks.
Proof.
  unfold add_names. revert acc. induction ks as [|c ks IH]; intros acc Hnd; simpl.
  - by rewrite app_nil_r.
  - assert (Hc : c ∉ acc).
    { apply NoDup_app in Hnd as (_ & Hd & _). intros Hin. apply (Hd c Hin). left. }
    rewrite decide_False by done. rewrite IH; rewrite <- app_assoc; done.
Qed.

Lemma ordered_union_nodup ks : NoDup ks → ordered_union ks = ks.
Proof. intros Hnd. by apply (add_names_nodup_app []). Qed.

(** Names that repeat [ks] add nothing to it. *)
Lemma ordered_union_repeated ks rest :
  NoDup ks → (∀ x, x ∈ rest → x ∈ ks) → ordered_union (ks ++ rest) = ks.
Proof.
  intros Hnd Hin. unfold ordered_union.
  rewrite add_names_app. fold (ordered_union ks).
  rewrite ordered_union_nodup by done. by apply add_names_included.
Qed.

(** Reading a dictionary back under its own keys gives the dictionary. *)
Lemma reindex_own_keys {V} (dflt : V) (r : pydict V) :
  NoDup r.*1 → (λ c, (c, default dflt (dict_get c r))) <$> r.*1 = r.
Proof.
  induction r as [|[k v] r IH]; csimpl; [done|].
  intros [Hk Hnd]%NoDup_cons. rewrite decide_True by done. simpl. f_equal.
  rewrite <- IH at 2 by done. apply list_fmap_ext. intros i c Hc.
  rewrite decide_False; [done|]. intros ->. apply Hk. by eapply list_elem_of_lookup_2.
Qed.

(** Items that all have the names [ks] unite to [ks]. *)
Lemma ordered_union_same {A} (xs : list A) (names : A → list string) ks :
  xs ≠ [] → NoDup ks → (∀ x, x ∈ xs → names x = ks) →
  ordered_union (xs ≫= names) = ks.
Proof.
  intros Hne Hnd Hks. destruct xs as [|x0 xs]; [done|].
  rewrite bind_cons, (Hks x0) by left.
  apply ordered_union_repeated; [done|].
  intros c (x & Hc & Hx)%list_elem_of_bind.
  rewrite (Hks x) in Hc by (by right). done.
Qed.

Lemma frame_rows_lookup df i :
  i < nrows df → frame_rows df !! i = Some (row_at (df_columns df) i).
Proof.
  intros Hi. unfold frame_rows. rewrite list_lookup_fmap, lookup_seq_lt by done. done.
Qed.

Lemma frame_rows_length df : length (frame_rows df) = nrows df.
Proof. unfold frame_rows. by rewrite length_fmap, length_seq. Qed.

Lemma range_index_length n : length (range_index n) = n.
Proof. unfold range_index. by rewrite length_fmap, length_seq. Qed.

(** A table built from rows that all have the keys [ks] has those rows. *)
Lemma DataFrame_records_rows (rows : list (pydict value)) ks :
  NoDup ks → (∀ r, r ∈ rows → r.*1 = ks) →
  frame_rows (DataFrame_records rows) = rows.
Proof.
  intros Hnd Hkeys. apply list_eq. intros i.
  destruct (rows !! i) as [r|] eqn:Hr.
  - assert (Hi : i < length rows) by (by eapply lookup_lt_Some).
    rewrite frame_rows_lookup by (unfold nrows; simpl; by rewrite range_index_length).
    f_equal. simpl. unfold row_at. rewrite <- list_fmap_compose.
    assert (Hu : ordered_union (rows ≫= dict_keys) = ks).
    { apply ordered_union_same; [by intros ->|done|done]. }
    assert (Hrk : r.*1 = ks) by (apply Hkeys; by eapply list_elem_of_lookup_2).
    rewrite Hu.
    transitivity ((λ c, (c, default VNaN (dict_get c r))) <$> r.*1);
      [|apply (reindex_own_keys VNaN); by rewrite Hrk].
    rewrite Hrk. apply list_fmap_ext. intros j c Hc. simpl. unfold prod_map. simpl.
    by rewrite list_lookup_fmap, Hr.
  - apply lookup_ge_None. apply lookup_ge_None in Hr.
    rewrite frame_rows_length. unfold nrows. simpl. by rewrite range_index_length.
Qed.

(** An output whose name is bound as an attribute cannot be called. *)
Lemma invoke_shadowed cls o a : is_Some (a !! o) → (invoke cls o a).1 = Raise TypeError.
Proof. intros [v Hv]. unfold invoke. by rewrite Hv. Qed.

Lemma clone_states_lookup ks a grid k params a_k :
  (∀ p, p ∈ grid → p.*1 = ks) →
  grid !! k = Some params →
  clone_states a grid !! k = Some a_k →
  (∀ x, x ∉ ks → a_k !! x = a !! x) ∧
  (NoDup ks → ∀ key v, (key, v) ∈ params → a_k !! key = Some v) ∧
  (∀ key, key ∈ ks → is_Some (a_k !! key)).
Proof.
  revert a k. induction grid as [|p grid IH]; intros a k Hkeys Hk Hs; [done|].
  assert (Hp : p.*1 = ks) by (apply Hkeys; left).
  destruct k as [|k]; simpl in *.
  - injection Hk as ->. injection Hs as <-. split_and!.
    + intros x Hx. apply updated_lookup_notin. by rewrite Hp.
    + intros Hnd key v Hin. apply updated_lookup_in; [by rewrite Hp|done].
    + intros key Hin. apply updated_is_Some. by rewrite Hp.
  - destruct (IH (updated a p) k) as (H1 & H2 & H3); [|done|done|].
    { intros p' Hp'. apply Hkeys. by right. }
    split_and!; [|done|done].
    intros x Hx. rewrite H1 by done. apply updated_lookup_notin. by rewrite Hp.
Qed.

(** *** The sweep on the attributes of the clone *)

Lemma call_outputs_length cls outputs a vs :
  (call_outputs cls outputs a).1 = Ok vs → length vs = length outputs.
Proof.
  revert a vs. induction outputs as [|o outputs IH]; intros a vs; simpl.
  - by intros [= <-].
  - destruct (invoke cls o a) as [[v|e] a1]; [|done].
    destruct (call_outputs cls outputs a1) as [[vs'|e] a2] eqn:Hrest; [|done].
    simpl. intros [= <-]. simpl. f_equal. apply (IH a1). by rewrite Hrest.
Qed.

(** The loop over the outputs, run on the clone in the heap, is their
    calls in turn on the clone's attributes. *)
Lemma eval_outputs_call cls c outputs acc h a :
  h !! c = Some a →
  eval_outputs cls c outputs acc h =
    (match (call_outputs cls outputs a).1 with
     | Ok vs => Ok (dict_update acc (zip outputs vs))
     | Raise e => Raise e
     end, <[c := (call_outputs cls outputs a).2]> h).
Proof.
  unfold eval_outputs. revert acc h a.
  induction outputs as [|o outputs IH]; intros acc h a Hc; simpl.
  - by rewrite list_insert_id.
  - pose proof (lookup_lt_Some _ _ _ Hc) as Hlt.
    rewrite !bind_run. unfold call_method, attrs_at. rewrite Hc. simpl.
    destruct (invoke cls o a) as [[v|e] a1]; [|done]. simpl.
    rewrite (IH _ _ a1) by (by apply list_lookup_insert_eq).
    rewrite list_insert_insert_eq.
    by destruct (call_outputs cls outputs a1) as [[vs|e] a2].
Qed.

(** Outputs that only read the instance leave it as it was, and each
    returns what it returns on those attributes. *)
Lemma call_outputs_read_only cls outputs a vs a' :
  (∀ o, o ∈ outputs → read_only cls o) →
  call_outputs cls outputs a = (Ok vs, a') →
  a' = a ∧ Forall2 (λ o v, (invoke cls o a).1 = Ok v) outputs vs.
Proof.
  revert vs. induction outputs as [|o outputs IH]; intros vs Hro; simpl.
  - intros [= <- <-]. by split.
  - pose proof (invoke_read_only cls o a (Hro o ltac:(left))) as Hsame.
    destruct (invoke cls o a) as [[v|e] a1] eqn:Hinv; [|done].
    simpl in Hsame. subst a1.
    destruct (call_outputs cls outputs a) as [[vs'|e] a2] eqn:Hrest; [|done].
    intros [= <- <-].
    destruct (IH vs') as [-> Hvs]; [|done|].
    { intros o' Ho'. apply Hro. by right. }
    split; [done|]. constructor; [|done]. by rewrite Hinv.
Qed.

Lemma carried_length cls outputs a grid :
  length (carried cls outputs a grid) = S (length grid).
Proof. revert a. induction grid as [|p grid IH]; intros a; simpl; [done|]. by rewrite IH. Qed.

Lemma carried_first cls outputs a grid : carried cls outputs a grid !! 0 = Some a.
Proof. by destruct grid. Qed.

(** The scenario loop of [data_table], when the outputs evaluate in every
    scenario: row [k] is assignment [k] with the values the outputs return
    on the clone, which carries into scenario [k] what scenario [k - 1]
    left. *)
Lemma data_table_sweep cls c outputs grid results h a :
  h !! c = Some a →
  (∀ k params a_k, grid !! k = Some params →
     carried cls outputs a grid !! k = Some a_k →
     ∃ vs, (call_outputs cls outputs (updated a_k params)).1 = Ok vs) →
  ∃ rows,
    (for_loop grid (data_table_scenario cls c outputs) results h).1
      = Ok (results ++ rows) ∧
    length rows = length grid ∧
    ∀ k params, grid !! k = Some params →
      ∃ a_k a' vs,
        carried cls outputs a grid !! k = Some a_k ∧
        carried cls outputs a grid !! S k = Some a' ∧
        call_outputs cls outputs (updated a_k params) = (Ok vs, a') ∧
        rows !! k = Some (dict_update params (zip outputs vs)).
Proof.
  revert results h a. induction grid as [|p grid IH]; intros results h a Hc Hok.
  - exists []. simpl. rewrite app_nil_r. by split_and!.
  - pose proof (lookup_lt_Some _ _ _ Hc) as Hlt.
    destruct (Hok 0 p a) as [vs Hvs]; [done|done|].
    destruct (call_outputs cls outputs (updated a p)) as [r a'] eqn:Hcall.
    simpl in Hvs. subst r.
    destruct (IH (results ++ [dict_update p (zip outputs vs)])
                (<[c := a']> h) a') as (rows & Hloop & Hlen & Hrows).
    { by apply list_lookup_insert_eq. }
    { intros k params a_k Hk Hs. apply (Hok (S k) params a_k); [done|].
      simpl. by rewrite Hcall. }
    exists (dict_update p (zip outputs vs) :: rows). split_and!.
    + simpl for_loop. rewrite bind_run. unfold data_table_scenario at 1.
      erewrite bind_run_ok by (by apply update_updated).
      rewrite bind_run.
      rewrite (eval_outputs_call _ _ _ _ _ (updated a p))
        by (by apply list_lookup_insert_eq).
      rewrite Hcall, list_insert_insert_eq. simpl.
      rewrite Hloop. by rewrite <- app_assoc.
    + simpl. by rewrite Hlen.
    + intros [|k] params Hk; simpl in *.
      * injection Hk as <-. exists a, a', vs. rewrite Hcall.
        split_and!; [done| |done|done]. by destruct grid.
      * rewrite Hcall. by apply Hrows.
Qed.

(** C4. For a mapping with distinct keys whose grid is generated, and
    runs in which [update] stays the method (the clone carries no attribute
    of that name into a scenario) and the requested outputs evaluate,
    [data_table] returns a table with one row per scenario assignment, in
    grid order.  One clone is reused: scenario 0 finds it with the model's
    attributes, and scenario [k + 1] finds it as scenario [k] left it,
    changes made by the outputs included.  Scenario [k] writes its
    assignment over what it finds, so the attributes the assignment names
    hold its values and every other attribute keeps the value carried in;
    then the outputs are called in turn, and row [k] is the assignment
    united with one entry per requested output holding the value returned.
    When the outputs only read the clone, each value is the output's value
    on the attributes with the assignment written, and these are handed on
    unchanged. *)
Theorem data_table_rows (cls : model_class) (self : loc) (h : heap)
    (scenario_inputs : pydict (list value)) (outputs : list string)
    (grid : list (pydict value)) :
  let baseline := attrs_at h self in
  let states := carried cls outputs baseline grid in
  NoDup scenario_inputs.*1 →
  create_parameter_grid scenario_inputs = Ok grid →
  (∀ k a, k < length grid → states !! k = Some a → a !! "update" = None) →
  (∀ k params a, grid !! k = Some params → states !! k = Some a →
     ∃ vs, (call_outputs cls outputs (updated a params)).1 = Ok vs) →
  ∃ df,
    (data_table cls self scenario_inputs outputs h).1 = Ok df ∧
    length (frame_rows df) = length grid ∧
    states !! 0 = Some baseline ∧
    ∀ k params, grid !! k = Some params →
      ∃ a a' vs,
        states !! k = Some a ∧
        states !! S k = Some a' ∧
        (∀ x, x ∉ scenario_inputs.*1 → updated a params !! x = a !! x) ∧
        (∀ key v, (key, v) ∈ params → updated a params !! key = Some v) ∧
        call_outputs cls outputs (updated a params) = (Ok vs, a') ∧
        frame_rows df !! k = Some (dict_update params (zip outputs vs)) ∧
        ((∀ o, o ∈ outputs → read_only cls o) →
         a' = updated a params ∧
         Forall2 (λ o v, (invoke cls o (updated a params)).1 = Ok v) outputs vs).
Proof.
  intros baseline states Hnd Hgrid _ Hok.
  assert (Hkeys : ∀ p, p ∈ grid → p.*1 = scenario_inputs.*1).
  { intros p Hp. by eapply grid_assignment_keys. }
  destruct (data_table_sweep cls (length h) outputs grid []
              (h ++ [attrs_at h self]) baseline) as (rows & Hloop & Hlen & Hrows).
  { by rewrite lookup_app_r, Nat.sub_diag. }
  { done. }
  assert (Hrun : (data_table cls self scenario_inputs outputs h).1
                 = Ok (DataFrame_records rows)).
  { unfold data_table.
    erewrite bind_run_ok by reflexivity.
    erewrite bind_run_ok by (unfold lift; by rewrite Hgrid).
    rewrite bind_run.
    destruct (for_loop grid _ [] _) as [r h']. simpl in Hloop. by rewrite Hloop. }
  assert (Hfr : frame_rows (DataFrame_records rows) = rows).
  { apply (DataFrame_records_rows rows (add_names scenario_inputs.*1 outputs)).
    - by apply add_names_nodup.
    - intros r [k Hr]%list_elem_of_lookup.
      pose proof (lookup_lt_Some _ _ _ Hr) as Hk. rewrite Hlen in Hk.
      destruct (lookup_lt_is_Some_2 grid k Hk) as [params Hp].
      destruct (Hrows k params Hp) as (a & a' & vs & _ & _ & Hcall & Hrow).
      rewrite Hr in Hrow. injection Hrow as ->.
      rewrite dict_update_keys, (Hkeys params) by (by eapply list_elem_of_lookup_2).
      rewrite fst_zip; [done|].
      rewrite (call_outputs_length cls outputs (updated a params) vs); [done|].
      by rewrite Hcall. }
  exists (DataFrame_records rows). rewrite Hfr.
  split_and!; [done|done|apply carried_first|].
  intros k params Hk.
  destruct (Hrows k params Hk) as (a & a' & vs & Hs & Hs' & Hcall & Hrow).
  assert (Hpk : params.*1 = scenario_inputs.*1)
    by (apply Hkeys; by eapply list_elem_of_lookup_2).
  exists a, a', vs. split_and!; [done|done| | |done|done|].
  - intros x Hx. apply updated_lookup_notin. by rewrite Hpk.
  - intros key v Hin. apply updated_lookup_in; [by rewrite Hpk|done].
  - intros Hro. by apply (call_outputs_read_only cls outputs _ vs a').
Qed.

Lemma data_table_rows_witness :
  ∃ df,
    (data_table Examples.counting_class 0 [("x", [VInt 1; VInt 2])]
       ["bump"] [Examples.counting_model]).1 = Ok df ∧
    length (frame_rows df) = 2.
Proof.
  destruct (data_table_rows Examples.counting_class 0 [Examples.counting_model]
              [("x", [VInt 1; VInt 2])] ["bump"]
              [[("x", VInt 1)]; [("x", VInt 2)]])
    as (df & Hdf & Hlen & _).
  - apply NoDup_singleton.
  - reflexivity.
  - intros [|[|k]] a Hk Hs; [| |simpl in Hk; lia];
      (injection Hs as Ha; subst a; vm_compute; reflexivity).
  - intros [|[|k]] params a Hk Hs; [| |done];
      (injection Hk as Hp; subst params; injection Hs as Ha; subst a;
       eexists; vm_compute; reflexivity).
  - exists df. split; [exact Hdf|exact Hlen].
Defined.

(** The example of C4: sweeping [x] over 1, 2, 3 with an output that
    doubles it gives three rows with the output values 2, 4, 6, in that
    order. *)
Example data_table_doubling_example :
  (data_table Examples.example_class 0 [("x", [VInt 1; VInt 2; VInt 3])]
     ["double"] [Examples.example_model]).1 =
  Ok {| df_index := [0%Z; 1%Z; 2%Z];
        df_columns := [("x", [VInt 1; VInt 2; VInt 3]);
                       ("double", [VInt 2; VInt 4; VInt 6])] |}.
Proof. vm_compute. reflexivity. Qed.

(** The reuse of the clone, seen through an output that changes it: the
    count kept in the clone runs on from scenario to scenario. *)
Example data_table_counting_example :
  (data_table Examples.counting_class 0 [("x", [VInt 1; VInt 2; VInt 3])]
     ["bump"] [Examples.counting_model]).1 =
  Ok {| df_index := [0%Z; 1%Z; 2%Z];
        df_columns := [("x", [VInt 1; VInt 2; VInt 3]);
                       ("bump", [VInt 1; VInt 2; VInt 3])] |}.
Proof. vm_compute. reflexivity. Qed.

(** ** The recorded baseline *)

(** C7. With [keep_random_inputs] true and a scenario grid, the
    [scenario_base_vals] of the returned records is the clone's live
    instance dictionary: for a model built with [x = 0] and scenarios
    [x = 1] and [x = 2], the clone had [x = 0] once the random inputs were
    installed, yet both returned records show [x = 2], the last scenario. *)
Theorem simulate_base_vals_follow_clone :
  let h := [Examples.example_model] in
  let random_inputs := [("d", VList [VInt 1; VInt 2; VInt 3])] in
  let run := simulate Examples.example_class 0 random_inputs ["identity"]
               (Some [("x", [VInt 1; VInt 2])]) true h in
  updated (attrs_at h 0) random_inputs !! "x" = Some (VInt 0) ∧
  ∃ r0 r1,
    run.1 = Ok [r0; r1] ∧
    scenario_vals r0 = [("x", VInt 1)] ∧
    scenario_vals r1 = [("x", VInt 2)] ∧
    base_vals_in run.2 r0 !! "x" = Some (VInt 2) ∧
    base_vals_in run.2 r1 !! "x" = Some (VInt 2).
Proof.
  split; [vm_compute; reflexivity|].
  eexists _, _. split; [vm_compute; reflexivity|].
  repeat split; vm_compute; reflexivity.
Qed.

(** ** Goal seek *)

Section GoalSeekRefinement.
Context `{PyArith}.
Context (cls : model_class) (self : loc) (h : heap).
Context (obj_fn by_changing : string) (target : value).
Hypothesis obj_fn_read_only : read_only cls obj_fn.

Local Abbreviation a0 := (attrs_at h self).
Local Abbreviation f := (objective cls obj_fn by_changing (attrs_at h self)).
Local Abbreviation probing := (probing h (attrs_at h self) by_changing).

Lemma probing_set x : probing (h ++ [<[by_changing := x]> a0]).
Proof. eexists. split; [done|]. intros y. apply insert_insert_eq. Qed.

(** Setting the input on the clone and calling the objective is [f]. *)
Lemma probe_run {B} (x : value) (k : value → M B) h' :
  probing h' →
  (setattr (length h) by_changing x ≫= λ _,
     call_method cls (length h) obj_fn ≫= k) h' =
    match f x with
    | Ok v => k v (h ++ [<[by_changing := x]> a0])
    | Raise e => (Raise e, h ++ [<[by_changing := x]> a0])
    end.
Proof using obj_fn_read_only.
  intros (a' & -> & Ha').
  assert (Hset : setattr (length h) by_changing x (h ++ [a'])
                 = (Ok (), h ++ [<[by_changing := x]> a0])).
  { unfold setattr. f_equal. rewrite <- Ha'.
    apply list_eq. intros i. destruct (decide (i = length h)) as [->|Hne].
    - rewrite list_lookup_alter_eq, !lookup_app_r, Nat.sub_diag by done. done.
    - rewrite list_lookup_alter_ne by done.
      destruct (decide (i < length h)).
      + by rewrite !lookup_app_l.
      + rewrite !lookup_ge_None_2; [done|rewrite length_app; simpl; lia..]. }
  erewrite bind_run_ok by exact Hset.
  rewrite bind_run.
  rewrite (call_method_read_only cls _ _ _ (<[by_changing := x]> a0))
    by (done || by rewrite lookup_app_r, Nat.sub_diag).
  done.
Qed.

Lemma bisection_loop_run n a b h' :
  probing h' →
  (bisection_loop cls (length h) obj_fn target by_changing n a b h').1 =
    bisect f target n a b.
Proof using obj_fn_read_only.
  revert a b h'. induction n as [|n IH]; intros a b h' Hh'; simpl; [done|].
  rewrite bind_run. unfold lift at 1.
  destruct (midpoint a b) as [m|e]; simpl; [|done].
  rewrite probe_run by done. destruct (f m) as [f_m|e]; simpl; [|done].
  rewrite probe_run by apply probing_set. destruct (f a) as [f_a|e]; simpl; [|done].
  rewrite probe_run by apply probing_set. destruct (f b) as [f_b|e]; simpl; [|done].
  rewrite bind_run. unfold lift at 1.
  destruct (residual_product f_a f_m target ≫= _) as [[]|e]; simpl; [| |done].
  { apply IH, probing_set. }
  rewrite bind_run. unfold lift at 1.
  destruct (residual_product f_b f_m target ≫= _) as [[]|e]; simpl; [| |done].
  { apply IH, probing_set. }
  rewrite bind_run. unfold lift at 1.
  by destruct (py_eq f_m target) as [[]|e].
Qed.

Lemma goal_seek_run a b N :
  (goal_seek cls self obj_fn target by_changing a b N h).1 = solve f target a b N.
Proof using obj_fn_read_only.
  unfold goal_seek, solve.
  erewrite bind_run_ok by reflexivity.
  rewrite probe_run by (by exists (attrs_at h self)). destruct (f a) as [f_a|e]; simpl; [|done].
  rewrite probe_run by apply probing_set. destruct (f b) as [f_b|e]; simpl; [|done].
  rewrite bind_run. unfold lift at 1.
  destruct (residual_product f_a f_b target ≫= _) as [[]|e]; simpl; [done| |done].
  apply bisection_loop_run, probing_set.
Qed.
End GoalSeekRefinement.

(** C3. For a read-only objective, [goal_seek] computes the bisection of
    the specification on the function [f] that sets [by_changing] on the
    model's attributes and evaluates the objective: [None] at once when
    [(f a - target) * (f b - target) >= 0]; otherwise at most [N] rounds,
    each taking the midpoint [m] and keeping [[a_n, m]] when
    [(f a_n - target) * (f m - target) < 0], else [[m, b_n]] when
    [(f b_n - target) * (f m - target) < 0], else returning [m] when
    [f m == target] and [None] when not; after [N] rounds, the midpoint of
    the last interval. *)
Theorem goal_seek_bisection `{PyArith} (cls : model_class) (self : loc) (h : heap)
    (obj_fn : string) (target : value) (by_changing : string) (a b : value) (N : Z) :
  read_only cls obj_fn →
  (goal_seek cls self obj_fn target by_changing a b N h).1 =
    solve (objective cls obj_fn by_changing (attrs_at h self)) target a b N.
Proof. intros Hro. by apply goal_seek_run. Qed.

Lemma goal_seek_bisection_witness :
  (goal_seek (H:=PyNumber.arith) Examples.example_class 0 "offset" (VInt 0) "x" (VInt 0) (VInt 10) 100
     [Examples.example_model]).1 =
    solve (H:=PyNumber.arith) (objective Examples.example_class "offset" "x"
             (attrs_at [Examples.example_model] 0))
      (VInt 0) (VInt 0) (VInt 10) 100.
Proof.
  apply (goal_seek_bisection (H:=PyNumber.arith)).
  apply example_class_read_only.
Defined.

(** On [f x = x - 5] with target 0 over [[0, 10]] the search returns 5, and
    on an interval without a sign change it returns [None]. *)
Example goal_seek_examples :
  (goal_seek (H:=PyNumber.arith) Examples.example_class 0 "offset" (VInt 0) "x" (VInt 0) (VInt 10) 100
     [Examples.example_model]).1 = Ok (VFloat 5) ∧
  (goal_seek (H:=PyNumber.arith) Examples.example_class 0 "offset" (VInt 0) "x" (VInt 6) (VInt 7) 100
     [Examples.example_model]).1 = Ok VNone.
Proof. split; vm_compute; reflexivity. Qed.

Lemma drivers_leave_original_unchanged_witness :
  let h := [Examples.example_model] in
  let h_dt := (data_table Examples.example_class 0 [("x", [VInt 1; VInt 2])]
                 ["double"] h).2 in
  let h_sim := (simulate Examples.example_class 0 [("d", VList [VInt 7])]
                  ["double"] (Some [("x", [VInt 1; VInt 2])]) true h).2 in
  let h_gs := (goal_seek (H:=PyNumber.arith) Examples.example_class 0 "offset"
                 (VInt 0) "x" (VInt 0) (VInt 10) 100 h).2 in
  (h_dt !! 0 = Some Examples.example_model ∧ ∃ clone, h_dt = h ++ [clone]) ∧
  (h_sim !! 0 = Some Examples.example_model ∧ ∃ clone, h_sim = h ++ [clone]) ∧
  (h_gs !! 0 = Some Examples.example_model ∧ ∃ clone, h_gs = h ++ [clone]).
Proof.
  apply (drivers_leave_original_unchanged (H:=PyNumber.arith)
           Examples.example_class 0 [Examples.example_model] Examples.example_model
           [("x", [VInt 1; VInt 2])] ["double"] [("d", VList [VInt 7])]
           (Some [("x", [VInt 1; VInt 2])]) true "offset" "x"
           (VInt 0) (VInt 0) (VInt 10) 100).
  reflexivity.
Defined.

(** ** Flattening simulation results *)

Section DictMap.
Context {V W : Type} (g : V → W).
Implicit Types (d : pydict V) (k : string) (v : V).

Lemma fmap_dict_set k v d :
  prod_map id g <$> dict_set k v d = dict_set k (g v) (prod_map id g <$> d).
Proof.
  induction d as [|[k' v'] d IH]; csimpl; [done|].
  destruct (decide (k = k')); csimpl; [done|]. by rewrite IH.
Qed.

Lemma fmap_dict_update d1 d2 :
  prod_map id g <$> dict_update d1 d2
    = dict_update (prod_map id g <$> d1) (prod_map id g <$> d2).
Proof.
  unfold dict_update. revert d1.
  induction d2 as [|[k v] d2 IH]; intros d1; csimpl; [done|].
  by rewrite IH, fmap_dict_set.
Qed.

Lemma fmap_keys d : (prod_map id g <$> d).*1 = d.*1.
Proof. rewrite <- list_fmap_compose. by apply list_fmap_ext; intros ? []. Qed.
End DictMap.

Lemma dict_set_Forall {V} (P : V → Prop) k v (d : pydict V) :
  P v → Forall (λ kv, P kv.2) d → Forall (λ kv, P kv.2) (dict_set k v d).
Proof.
  intros Hv. induction 1 as [|[k' v'] d Hk' Hd IH]; simpl.
  - by apply Forall_singleton.
  - destruct (decide (k = k')); by apply Forall_cons.
Qed.

Lemma dict_update_Forall {V} (P : V → Prop) (d1 d2 : pydict V) :
  Forall (λ kv, P kv.2) d1 → Forall (λ kv, P kv.2) d2 →
  Forall (λ kv, P kv.2) (dict_update d1 d2).
Proof.
  unfold dict_update. intros H1 H2. revert d1 H1.
  induction H2 as [|[k v] d2 Hk _ IH]; intros d1 H1; simpl; [done|].
  apply IH. by apply dict_set_Forall.
Qed.

Lemma dict_get_Some_elem {V} k (v : V) (d : pydict V) :
  dict_get k d = Some v → (k, v) ∈ d.
Proof.
  induction d as [|[k' v'] d IH]; simpl; [done|].
  destruct (decide (k = k')) as [->|Hne].
  - intros [= ->]. left.
  - intros Hd. right. by apply IH.
Qed.

(** *** The table of one record *)

Lemma scalar_broadcast n v : array_len v = None → broadcast n v = replicate n v.
Proof. by destruct v. Qed.

Lemma frame_setitem_scalar key v df :
  array_len v = None →
  frame_setitem key v df =
    Ok {| df_index := df_index df;
          df_columns := dict_set key (replicate (nrows df) v) (df_columns df) |}.
Proof. by destruct v. Qed.

Lemma setitem_scalars (svals : pydict value) (df : frame) :
  Forall (λ v, array_len v = None) svals.*2 →
  res_for svals (λ '(key, val) df, frame_setitem key val df) df =
    Ok {| df_index := df_index df;
          df_columns :=
            dict_update (df_columns df)
              (prod_map id (replicate (nrows df)) <$> svals) |}.
Proof.
  revert df. induction svals as [|[k v] svals IH]; intros df Hs; csimpl.
  - by destruct df.
  - apply Forall_cons in Hs as [Hv Hs]. simpl in Hv.
    rewrite frame_setitem_scalar by done. simpl. by rewrite IH.
Qed.

Lemma DataFrame_dict_arrays (data : pydict value) n :
  Forall (λ v, array_len v = Some n) data.*2 →
  (data = [] → n = 0) →
  DataFrame_dict data =
    Ok {| df_index := range_index n;
          df_columns := prod_map id (broadcast n) <$> data |}.
Proof.
  intros Harr Hn. unfold DataFrame_dict.
  assert (Hlens : omap array_len data.*2 = replicate (length data) n).
  { clear Hn. induction data as [|[k v] data IH]; csimpl in *; [done|].
    apply Forall_cons in Harr as [Hv Harr]. rewrite Hv. simpl. by rewrite IH. }
  rewrite Hlens. destruct data as [|kv data]; simpl.
  - by rewrite Hn.
  - assert (Hall : forallb (Nat.eqb n) (replicate (length data) n) = true).
    { induction (length data) as [|m IHm]; simpl; [done|].
      by rewrite Nat.eqb_refl. }
    by rewrite Hall.
Qed.

Lemma replications_empty r : output r = [] → replications r = 0.
Proof. unfold replications. by intros ->. Qed.

Lemma frame_of_record_flat r :
  flat_record r → frame_of_record r = Ok (record_frame r).
Proof.
  intros (_ & _ & Harr & Hscalar). unfold frame_of_record.
  rewrite (DataFrame_dict_arrays _ (replications r))
    by (done || apply replications_empty).
  simpl. rewrite setitem_scalars by done.
  unfold record_frame, nrows. simpl. by rewrite range_index_length.
Qed.

Lemma record_frame_nrows r : nrows (record_frame r) = replications r.
Proof. unfold nrows, record_frame. simpl. apply range_index_length. Qed.

Lemma record_frame_keys r :
  dict_keys (df_columns (record_frame r)) = record_columns r.
Proof.
  unfold record_columns, record_row, record_frame, dict_keys. simpl.
  rewrite !dict_update_keys, !dict_set_keys, !fmap_keys. done.
Qed.

Lemma record_columns_nodup r : NoDup (output r).*1 → NoDup (record_columns r).
Proof.
  intros Hnd. unfold record_columns, record_row, dict_keys.
  rewrite dict_update_keys. apply add_names_nodup.
  rewrite dict_set_keys, fmap_keys. case_decide; [done|].
  apply NoDup_app. split_and!; [done| |apply NoDup_singleton].
  by intros x Hx ->%list_elem_of_singleton.
Qed.

Lemma record_frame_rectangular r : flat_record r → rectangular (record_frame r).
Proof.
  intros (_ & _ & Harr & _). unfold rectangular.
  rewrite record_frame_nrows. unfold record_frame. simpl.
  apply (dict_update_Forall (λ col, length col = replications r)).
  - apply (dict_set_Forall (λ col, length col = replications r)).
    + apply length_replicate.
    + apply Forall_fmap. apply Forall_fmap in Harr.
      eapply Forall_impl; [exact Harr|]. intros [k v]. simpl.
      destruct v; simpl; try done. by intros [= ->].
  - apply Forall_fmap, Forall_forall. intros [k v] _. simpl. apply length_replicate.
Qed.

Lemma record_frame_row r i :
  i < replications r → row_at (df_columns (record_frame r)) i = record_row r i.
Proof.
  intros Hi. unfold row_at, record_frame, record_row. simpl.
  rewrite fmap_dict_update, fmap_dict_set, <- !list_fmap_compose.
  rewrite lookup_replicate_2 by done. simpl. f_equal; [f_equal|].
  - apply list_fmap_ext. intros j [k v] _. unfold prod_map. simpl. f_equal.
    destruct v; simpl; try by rewrite lookup_replicate_2. done.
  - rewrite <- (list_fmap_id (scenario_vals r)) at 2.
    apply list_fmap_ext. intros j [k v] _. unfold prod_map. simpl.
    by rewrite lookup_replicate_2.
Qed.

Lemma record_frame_rows r : frame_rows (record_frame r) = record_rows r.
Proof.
  unfold frame_rows, record_rows. rewrite record_frame_nrows.
  apply list_fmap_ext. intros j i Hi. apply record_frame_row.
  apply lookup_seq in Hi. lia.
Qed.

(** *** Stacking tables *)

Lemma column_or_nan_length c df :
  rectangular df → length (column_or_nan c df) = nrows df.
Proof.
  intros Hrect. unfold column_or_nan.
  destruct (dict_get c (df_columns df)) as [col|] eqn:Hc; simpl.
  - apply dict_get_Some_elem in Hc.
    unfold rectangular in Hrect. rewrite Forall_forall in Hrect.
    apply (Hrect (c, col) Hc).
  - apply length_replicate.
Qed.

(** Read under the names [ks], the rows of stacked tables are the rows of
    the tables, one table after the other. *)
Lemma stacked_rows (ks : list string) (dfs : list frame) :
  Forall rectangular dfs →
  row_at ((λ c, (c, dfs ≫= column_or_nan c)) <$> ks)
    <$> seq 0 (length (dfs ≫= df_index)) =
  dfs ≫= (λ df, row_at ((λ c, (c, column_or_nan c df)) <$> ks) <$> seq 0 (nrows df)).
Proof.
  induction 1 as [|df dfs Hdf _ IH]; [done|].
  rewrite !bind_cons, length_app, seq_app, fmap_app. fold (nrows df). f_equal.
  - apply list_fmap_ext. intros j i Hi. apply lookup_seq in Hi as [-> Hi].
    unfold row_at. rewrite <- !list_fmap_compose.
    apply list_fmap_ext. intros j' c _. unfold prod_map. simpl. f_equal.
    rewrite ?bind_cons, lookup_app_l; [done|]. by rewrite column_or_nan_length.
  - rewrite <- IH. simpl.
    assert (Hs : ∀ m, seq (nrows df) m = Nat.add (nrows df) <$> seq 0 m).
    { intros m. rewrite fmap_add_seq. f_equal. lia. }
    rewrite Hs, <- list_fmap_compose.
    apply list_fmap_ext. intros j i _. simpl.
    unfold row_at. rewrite <- !list_fmap_compose.
    apply list_fmap_ext. intros j' c _. unfold prod_map. simpl. f_equal.
    rewrite lookup_app_r; rewrite column_or_nan_length by done; [|lia].
    do 2 f_equal. lia.
Qed.

Lemma own_columns (df : frame) :
  NoDup (df_columns df).*1 →
  (λ c, (c, column_or_nan c df)) <$> (df_columns df).*1 = df_columns df.
Proof. intros Hnd. unfold column_or_nan. by apply reindex_own_keys. Qed.

(** Tables with the same column names stack to a table with those names
    whose rows are theirs. *)
Lemma concat_frames_rows (ks : list string) (dfs : list frame) :
  dfs ≠ [] → NoDup ks →
  Forall rectangular dfs →
  (∀ df, df ∈ dfs → dict_keys (df_columns df) = ks) →
  dict_keys (df_columns (concat_frames dfs)) = ks ∧
  frame_rows (concat_frames dfs) = dfs ≫= frame_rows.
Proof.
  intros Hne Hnd Hrect Hks.
  assert (Hu : ordered_union (dfs ≫= (λ df, dict_keys (df_columns df))) = ks)
    by (by apply ordered_union_same).
  split.
  - unfold concat_frames. simpl. rewrite Hu. unfold dict_keys.
    rewrite <- list_fmap_compose.
    rewrite <- (list_fmap_id ks) at 2. by apply list_fmap_ext.
  - unfold frame_rows at 1, concat_frames, nrows at 1. simpl.
    rewrite Hu, stacked_rows by done.
    apply Forall_bind_ext, Forall_forall. intros df Hdf. unfold frame_rows.
    rewrite <- (Hks df Hdf). unfold dict_keys. rewrite own_columns; [done|].
    fold (dict_keys (df_columns df)). by rewrite (Hks df Hdf).
Qed.

Lemma bind_after_fmap {A B C} (f : A → B) (g : B → list C) (l : list A) :
  (f <$> l) ≫= g = l ≫= (λ x, g (f x)).
Proof. induction l as [|x l IH]; csimpl; [done|]. by rewrite IH. Qed.

Lemma collect_frames (results : list scenario_record) (acc : list frame) :
  (∀ r, r ∈ results → flat_record r) →
  res_for results (λ r dfs, df ← frame_of_record r; Ok (dfs ++ [df])) acc
    = Ok (acc ++ (record_frame <$> results)).
Proof.
  revert acc. induction results as [|r results IH]; intros acc Hflat; csimpl.
  - by rewrite app_nil_r.
  - rewrite frame_of_record_flat by (apply Hflat; left). simpl.
    rewrite IH by (intros r' Hr'; apply Hflat; by right).
    by rewrite <- app_assoc.
Qed.

(** C5, as stated, fails.  The empty list meets the condition on output
    arrays, yet flattening it raises [IndexError]; and an output named like
    the scenario number is replaced by that number in every row. *)
Lemma get_sim_results_df_counterexample :
  (∀ r, r ∈ @nil scenario_record →
     Forall (λ v, array_len v = Some (replications r)) (output r).*2) ∧
  get_sim_results_df [] = Raise IndexError ∧
  let r := {| scenario_base_vals := 0; scenario_num := 0; scenario_vals := [];
              output := [("scenario_num", VList [VInt 7; VInt 8])] |} in
  Forall (λ v, array_len v = Some (replications r)) (output r).*2 ∧
  ∃ df, get_sim_results_df [r] = Ok df ∧
    frame_rows df = [[("scenario_num", VInt 0)]; [("scenario_num", VInt 0)]].
Proof.
  split; [by intros r ?%elem_of_nil|]. split; [reflexivity|].
  split; [by repeat constructor|].
  eexists. split; [vm_compute; reflexivity|]. vm_compute. reflexivity.
Qed.

(** C5, amended. For a non-empty list of records whose dictionaries have
    distinct keys, whose output arrays all have the record's replication
    count, whose scenario values are scalars and which all give the same
    column names, [get_sim_results_df] returns a table with one row per
    record and replication, record after record and replication after
    replication.  A row holds the replication's element of every output
    array, then the scenario number, then the scenario's values, a later
    entry replacing an earlier one of the same name; the columns are those
    of any one record, for a single record as for several. *)
Theorem get_sim_results_df_rows (results : list scenario_record) :
  results ≠ [] →
  (∀ r, r ∈ results → flat_record r) →
  (∀ r r', r ∈ results → r' ∈ results → record_columns r = record_columns r') →
  ∃ df,
    get_sim_results_df results = Ok df ∧
    frame_rows df = results ≫= record_rows ∧
    ∀ r, r ∈ results → dict_keys (df_columns df) = record_columns r.
Proof.
  intros Hne Hflat Hcols. unfold get_sim_results_df.
  rewrite collect_frames by done. simpl.
  destruct results as [|r0 rest]; [done|]. clear Hne.
  assert (Hk0 : ∀ r, r ∈ r0 :: rest → record_columns r = record_columns r0).
  { intros r Hr. apply Hcols; [done|left]. }
  destruct rest as [|r1 rest].
  - rewrite decide_False by (simpl; lia). simpl.
    exists (record_frame r0). split_and!; [done| |].
    + rewrite record_frame_rows. csimpl. by rewrite app_nil_r.
    + intros r ->%list_elem_of_singleton. apply record_frame_keys.
  - rewrite decide_True by (simpl; lia).
    destruct (concat_frames_rows (record_columns r0)
                (record_frame <$> r0 :: r1 :: rest)) as [Hkeys Hrows].
    + done.
    + apply record_columns_nodup, Hflat. left.
    + apply Forall_fmap, Forall_forall. intros r Hr. simpl.
      by apply record_frame_rectangular, Hflat.
    + intros df (r & -> & Hr)%list_elem_of_fmap.
      rewrite record_frame_keys. by apply Hk0.
    + eexists. split_and!; [done| |].
      * rewrite Hrows, bind_after_fmap.
        apply Forall_bind_ext, Forall_forall. intros r _. apply record_frame_rows.
      * intros r Hr. rewrite Hkeys. symmetry. by apply Hk0.
Qed.

Lemma get_sim_results_df_rows_witness :
  let r0 := {| scenario_base_vals := 0; scenario_num := 0;
               scenario_vals := [("x", VInt 1)];
               output := [("profit", VList [VInt 10; VInt 20])] |} in
  let r1 := {| scenario_base_vals := 0; scenario_num := 1;
               scenario_vals := [("x", VInt 2)];
               output := [("profit", VList [VInt 30; VInt 40])] |} in
  ∃ df,
    get_sim_results_df [r0; r1] = Ok df ∧
    frame_rows df = [r0; r1] ≫= record_rows ∧
    ∀ r, r ∈ [r0; r1] → dict_keys (df_columns df) = record_columns r.
Proof.
  intros r0 r1. apply (get_sim_results_df_rows [r0; r1]).
  - discriminate.
  - intros r Hr.
    repeat (apply elem_of_cons in Hr as [->|Hr]); [..|by apply elem_of_nil in Hr];
      (split_and!; [apply NoDup_singleton|apply NoDup_singleton| |];
       repeat constructor).
  - intros r r' Hr Hr'.
    repeat (apply elem_of_cons in Hr as [->|Hr]); [..|by apply elem_of_nil in Hr];
      (repeat (apply elem_of_cons in Hr' as [->|Hr']);
         [..|by apply elem_of_nil in Hr']); reflexivity.
Defined.

(** The flattening of the record of the identity example has three rows. *)
Example flatten_identity_example :
  ∃ df,
    get_sim_results_df
      [ {| scenario_base_vals := 0; scenario_num := 0; scenario_vals := [];
           output := [("identity", VList [VInt 1; VInt 2; VInt 3])] |} ] = Ok df ∧
    frame_rows df =
      [ [("identity", VInt 1); ("scenario_num", VInt 0)];
        [("identity", VInt 2); ("scenario_num", VInt 0)];
        [("identity", VInt 3); ("scenario_num", VInt 0)] ].
Proof. eexists. split; [vm_compute; reflexivity|]. vm_compute. reflexivity. Qed.

(** * Further properties of the drivers *)

(** ** The grid is the Cartesian product *)

Section ProductMore.
Context {A : Type}.
Implicit Types (pools : list (list A)) (t : list A).

Lemma product_cons_elem pool (P : list (list A)) t :
  t ∈ flat_map (λ x, map (cons x) P) pool ↔ ∃ x t', t = x :: t' ∧ x ∈ pool ∧ t' ∈ P.
Proof.
  rewrite list_elem_of_In, in_flat_map. split.
  - intros (x & Hx & Ht). apply in_map_iff in Ht as (t' & <- & Ht').
    exists x, t'. by rewrite !list_elem_of_In.
  - intros (x & t' & -> & Hx & Ht'). exists x. rewrite list_elem_of_In in Hx.
    split; [done|]. apply in_map_iff. exists t'. by rewrite <- list_elem_of_In.
Qed.

Lemma product_elem pools t : t ∈ product pools ↔ Forall2 (∈) t pools.
Proof.
  revert t. induction pools as [|pool rest IH]; intros t; simpl.
  - rewrite list_elem_of_singleton. split; [by intros ->|by inversion 1].
  - rewrite product_cons_elem. split.
    + intros (x & t' & -> & Hx & Ht'). constructor; [done|by apply IH].
    + inversion 1 as [|x pool' t' rest' Hx Ht']; subst.
      exists x, t'. split_and!; [done|done|by apply IH].
Qed.

Lemma product_nodup pools : Forall NoDup pools → NoDup (product pools).
Proof.
  induction 1 as [|pool rest Hpool _ IH]; simpl; [apply NoDup_singleton|].
  induction Hpool as [|x pool Hx Hpool IHp]; simpl; [apply NoDup_nil_2|].
  apply NoDup_app. split_and!; [|clear IHp|done].
  - by apply (NoDup_fmap_2 (cons x)).
  - intros t Ht Ht'. apply product_cons_elem in Ht' as (y & t' & -> & Hy & _).
    apply list_elem_of_In, in_map_iff in Ht as (t'' & [= <- <-] & _). done.
Qed.
End ProductMore.

Lemma assignment_choice (params : pydict value) (si : pydict (list value)) :
  Forall2 (λ p kv, p.1 = kv.1 ∧ p.2 ∈ kv.2) params si ↔
  params.*1 = si.*1 ∧ Forall2 (∈) params.*2 si.*2.
Proof.
  split.
  - induction 1 as [|[k v] [k' vs] params si [Hk Hv] _ [IH1 IH2]]; csimpl in *; [done|].
    subst k'. rewrite IH1. split; [done|]. by constructor.
  - revert si. induction params as [|[k v] params IH]; intros [|[k' vs] si]; csimpl;
      intros [Hk Hv]; try done.
    injection Hk as -> Hk. inversion Hv; subst.
    constructor; [done|]. by apply IH.
Qed.

(** The assignments of a grid are the choices of one candidate per key. *)
Lemma grid_elem (scenario_inputs : pydict (list value)) grid params :
  NoDup scenario_inputs.*1 →
  create_parameter_grid scenario_inputs = Ok grid →
  params ∈ grid ↔ Forall2 (λ p kv, p.1 = kv.1 ∧ p.2 ∈ kv.2) params scenario_inputs.
Proof.
  intros Hnd Hgrid.
  destruct (decide (scenario_inputs = [])) as [->|Hne]; [done|].
  rewrite create_parameter_grid_nonempty in Hgrid by done. injection Hgrid as <-.
  assert (Hzip : ∀ t, t ∈ product scenario_inputs.*2 →
            dict_of_pairs (zip scenario_inputs.*1 t) = zip scenario_inputs.*1 t ∧
            (zip scenario_inputs.*1 t).*1 = scenario_inputs.*1 ∧
            (zip scenario_inputs.*1 t).*2 = t).
  { intros t Ht. apply product_elem_length in Ht. rewrite length_fmap in Ht.
    assert (Hfst : (zip scenario_inputs.*1 t).*1 = scenario_inputs.*1)
      by (apply fst_zip; rewrite length_fmap; lia).
    split_and!; [|done|apply snd_zip; rewrite length_fmap; lia].
    apply dict_of_pairs_nodup. by rewrite Hfst. }
  rewrite assignment_choice, list_elem_of_fmap. split.
  - intros (t & -> & Ht). destruct (Hzip t Ht) as (-> & -> & ->).
    split; [done|]. by apply product_elem.
  - intros [Hk Hv]. exists params.*2. apply product_elem in Hv.
    destruct (Hzip _ Hv) as (-> & _ & _). split; [|done].
    by rewrite <- Hk, zip_fst_snd.
Qed.

(** X1. For a mapping with distinct keys, the grid is the Cartesian product
    of the candidate sequences: an assignment is in the grid exactly when it
    gives every key of the mapping, in the mapping's order, one of that
    key's candidates; and when no candidate sequence repeats a value, no
    assignment occurs twice. *)
Theorem create_parameter_grid_cartesian (scenario_inputs : pydict (list value))
    (grid : list (pydict value)) :
  NoDup scenario_inputs.*1 →
  create_parameter_grid scenario_inputs = Ok grid →
  (∀ params, params ∈ grid ↔
     Forall2 (λ p kv, p.1 = kv.1 ∧ p.2 ∈ kv.2) params scenario_inputs) ∧
  (Forall (λ kv, NoDup kv.2) scenario_inputs → NoDup grid).
Proof.
  intros Hnd Hgrid. split; [intros params; by apply grid_elem|].
  destruct (decide (scenario_inputs = [])) as [->|Hne]; [done|].
  rewrite create_parameter_grid_nonempty in Hgrid by done. injection Hgrid as <-.
  intros Hvs. apply NoDup_fmap_2_strong.
  - intros t t' Ht Ht' Heq.
    assert (Hsnd : ∀ t, t ∈ product scenario_inputs.*2 →
              (dict_of_pairs (zip scenario_inputs.*1 t)).*2 = t).
    { clear -Hnd. intros t Ht. apply product_elem_length in Ht.
      rewrite length_fmap in Ht.
      rewrite dict_of_pairs_nodup
        by (rewrite fst_zip by (rewrite length_fmap; lia); done).
      apply snd_zip. rewrite length_fmap. lia. }
    by rewrite <- (Hsnd t Ht), <- (Hsnd t' Ht'), Heq.
  - apply product_nodup. apply Forall_fmap.
    eapply Forall_impl; [exact Hvs|]. by intros [k vs].
Qed.

Lemma create_parameter_grid_cartesian_witness :
  let scenario_inputs := [("a", [VInt 1; VInt 2]); ("b", [VInt 3])] in
  let grid := [[("a", VInt 1); ("b", VInt 3)]; [("a", VInt 2); ("b", VInt 3)]] in
  (∀ params, params ∈ grid ↔
     Forall2 (λ p kv, p.1 = kv.1 ∧ p.2 ∈ kv.2) params scenario_inputs) ∧
  (Forall (λ kv, NoDup kv.2) scenario_inputs → NoDup grid).
Proof.
  intros scenario_inputs grid.
  apply (create_parameter_grid_cartesian scenario_inputs grid).
  - apply NoDup_cons. split; [|apply NoDup_singleton].
    intros Hin%list_elem_of_singleton. discriminate.
  - reflexivity.
Defined.

(** ** [update] *)

(** X2. Whenever [update] returns, it has given the object every
    attribute of the dictionary with the dictionary's value, has left the
    object's other attributes as they were, and has touched no other
    object. *)
Theorem update_sets_attributes (self : loc) (param_dict : pydict value)
    (h h' : heap) (a : gmap string value) :
  h !! self = Some a →
  NoDup param_dict.*1 →
  update self param_dict h = (Ok (), h') →
  ∃ a',
    h' = <[self := a']> h ∧
    (∀ key v, (key, v) ∈ param_dict → a' !! key = Some v) ∧
    (∀ key, key ∉ param_dict.*1 → a' !! key = a !! key) ∧
    (∀ other, other ≠ self → h' !! other = h !! other).
Proof.
  intros Hself Hnd Hrun. rewrite (update_updated self param_dict h a Hself) in Hrun.
  injection Hrun as <-. exists (updated a param_dict). split_and!.
  - done.
  - intros key v Hin. by apply updated_lookup_in.
  - intros key Hkey. by apply updated_lookup_notin.
  - intros other Hne. by apply list_lookup_insert_ne.
Qed.

Lemma update_sets_attributes_witness :
  let h' := (update 0 [("x", VInt 3); ("y", VInt 4)] [Examples.example_model]).2 in
  ∃ a',
    h' = <[0 := a']> [Examples.example_model] ∧
    (∀ key v, (key, v) ∈ [("x", VInt 3); ("y", VInt 4)] → a' !! key = Some v) ∧
    (∀ key, key ∉ [("x", VInt 3); ("y", VInt 4)].*1 →
       a' !! key = Examples.example_model !! key) ∧
    (∀ other, other ≠ 0 → h' !! other = [Examples.example_model] !! other).
Proof.
  intros h'.
  apply (update_sets_attributes 0 [("x", VInt 3); ("y", VInt 4)]
           [Examples.example_model] h' Examples.example_model).
  - reflexivity.
  - apply NoDup_cons. split; [|apply NoDup_singleton].
    intros Hin%list_elem_of_singleton. discriminate.
  - reflexivity.
Defined.

(** ** The records of a simulation *)

Lemma simulate_scenario_ok cls c outputs base params st h st' h' :
  simulate_scenario cls c outputs base params st h = (Ok st', h') →
  ∃ raw,
    st' = ((st.1 + 1)%Z,
           st.2 ++ [ {| scenario_base_vals := base; scenario_num := st.1;
                        scenario_vals := params; output := raw |} ]).
Proof.
  unfold simulate_scenario. rewrite bind_run, update_run. simpl. rewrite bind_run.
  destruct (eval_outputs cls c outputs [] _) as [[raw|e] h1]; simpl; [|done].
  intros [= <- <-]. by exists raw.
Qed.

(** The scenario loop appends one record per assignment, numbered on from
    the counter, each holding its assignment and the same reference. *)
Lemma simulate_loop_records cls c outputs base grid st h st' h' :
  for_loop grid (simulate_scenario cls c outputs base) st h = (Ok st', h') →
  ∃ rs,
    st' = ((st.1 + Z.of_nat (length grid))%Z, st.2 ++ rs) ∧
    length rs = length grid ∧
    Forall (λ r, scenario_base_vals r = base) rs ∧
    ∀ k params, grid !! k = Some params →
      ∃ r, rs !! k = Some r ∧
        scenario_num r = (st.1 + Z.of_nat k)%Z ∧ scenario_vals r = params.
Proof.
  revert st h. induction grid as [|p grid IH]; intros st h; simpl.
  - intros [= <- <-]. exists []. destruct st as [num results]. simpl.
    rewrite Z.add_0_r, app_nil_r. by split_and!.
  - rewrite bind_run.
    destruct (simulate_scenario cls c outputs base p st h) as [[st1|e] h1] eqn:Hbody;
      [|done].
    apply simulate_scenario_ok in Hbody as [raw ->].
    intros (rs & -> & Hlen & Hbase & Hrs)%IH. simpl in *.
    eexists (_ :: rs). split_and!.
    + rewrite <- app_assoc. simpl. f_equal. lia.
    + simpl. by rewrite Hlen.
    + by constructor.
    + intros [|k] params Hk; simpl in *.
      * injection Hk as <-. eexists. split; [done|]. simpl. split; [lia|done].
      * destruct (Hrs k params Hk) as (r & Hr & Hnum & Hvals).
        exists r. split_and!; [done|lia|done].
Qed.

(** The scenario loop only appends to the list of records. *)
Lemma for_loop_keeps cls c outputs base grid st h st' h' :
  for_loop grid (simulate_scenario cls c outputs base) st h = (Ok st', h') →
  ∃ rs, st'.2 = st.2 ++ rs.
Proof.
  intros (rs & -> & _)%simulate_loop_records. by exists rs.
Qed.

(** Every record of a run refers to the same object, the clone or the
    caller's model, and the run leaves one new object on the heap. *)
Lemma simulate_bases cls self random_inputs outputs scenario_inputs keep h rs h' :
  simulate cls self random_inputs outputs scenario_inputs keep h = (Ok rs, h') →
  Forall (λ r, scenario_base_vals r = if keep : bool then length h else self) rs ∧
  ∃ clone, h' = h ++ [clone].
Proof.
  intros Hrun. split.
  - revert Hrun. unfold simulate.
    erewrite bind_run_ok by reflexivity.
    erewrite bind_run_ok by apply update_run.
    erewrite bind_run_ok by apply vars_run.
    destruct scenario_inputs as [si|].
    + rewrite bind_run. unfold lift at 1.
      destruct (create_parameter_grid si) as [grid|e]; [|done].
      rewrite bind_run.
      destruct (for_loop grid _ _ _) as [[st'|e] h1] eqn:Hloop; [|done].
      apply simulate_loop_records in Hloop as (rs' & -> & _ & Hbase & _).
      by intros [= <- _].
    + rewrite bind_run.
      destruct (eval_outputs cls _ outputs [] _) as [[raw|e] h1]; [|done].
      intros [= <- _]. by repeat constructor.
  - destruct (simulate_writes cls self random_inputs outputs scenario_inputs keep h)
      as [clone Hclone].
    rewrite Hrun in Hclone. by exists clone.
Qed.

(** X3. When [simulate] with a scenario grid returns, it returns one record
    per assignment of the grid, in grid order: record [k] has scenario
    number [k], counted from 0, holds assignment [k] as its scenario values,
    and all records refer to one and the same object as their base values,
    the clone when [keep_random_inputs] is set and the caller's model when
    not.  This holds for every model class, whatever its outputs do. *)
Theorem simulate_scenario_records (cls : model_class) (self : loc) (h : heap)
    (random_inputs : pydict value) (outputs : list string)
    (scenario_inputs : pydict (list value)) (keep_random_inputs : bool)
    (grid : list (pydict value)) (rs : list scenario_record) :
  create_parameter_grid scenario_inputs = Ok grid →
  (simulate cls self random_inputs outputs (Some scenario_inputs)
     keep_random_inputs h).1 = Ok rs →
  length rs = length grid ∧
  ∀ k params, grid !! k = Some params →
    ∃ r, rs !! k = Some r ∧
      scenario_num r = Z.of_nat k ∧
      scenario_vals r = params ∧
      scenario_base_vals r = if keep_random_inputs then length h else self.
Proof.
  intros Hgrid. unfold simulate.
  erewrite bind_run_ok by reflexivity.
  erewrite bind_run_ok by apply update_run.
  erewrite bind_run_ok by apply vars_run.
  erewrite bind_run_ok by (unfold lift; by rewrite Hgrid).
  rewrite bind_run.
  destruct (for_loop grid _ _ _) as [[st'|e] h1] eqn:Hloop; [|done].
  apply simulate_loop_records in Hloop as (rs' & -> & Hlen & Hbase & Hrs).
  simpl. intros [= <-]. split; [done|].
  intros k params Hk. destruct (Hrs k params Hk) as (r & Hr & Hnum & Hvals).
  exists r. split_and!; [done|by rewrite Hnum|done|].
  rewrite Forall_forall in Hbase. apply Hbase. by eapply list_elem_of_lookup_2.
Qed.

Lemma simulate_scenario_records_witness :
  let grid := [[("x", VInt 1)]; [("x", VInt 2)]] in
  let rs :=
    [ {| scenario_base_vals := 1; scenario_num := 0; scenario_vals := [("x", VInt 1)];
         output := [("identity", VList [VInt 7])] |};
      {| scenario_base_vals := 1; scenario_num := 1; scenario_vals := [("x", VInt 2)];
         output := [("identity", VList [VInt 7])] |} ] in
  length rs = length grid ∧
  ∀ k params, grid !! k = Some params →
    ∃ r, rs !! k = Some r ∧
      scenario_num r = Z.of_nat k ∧
      scenario_vals r = params ∧
      scenario_base_vals r = if true then length [Examples.example_model] else 0.
Proof.
  intros grid rs.
  apply (simulate_scenario_records Examples.example_class 0 [Examples.example_model]
           [("d", VList [VInt 7])] ["identity"] [("x", [VInt 1; VInt 2])] true grid rs).
  - reflexivity.
  - vm_compute. reflexivity.
Defined.

(** X4. With [keep_random_inputs] false, the [scenario_base_vals] of every
    record [simulate] returns is the caller's own model: read after the
    call, it shows the attributes the model had before the call, without the
    random inputs and without any scenario value, whatever the outputs did
    to the clone. *)
Theorem simulate_base_vals_original (cls : model_class) (self : loc) (h h' : heap)
    (a : gmap string value) (random_inputs : pydict value) (outputs : list string)
    (scenario_inputs : option (pydict (list value))) (rs : list scenario_record) :
  h !! self = Some a →
  simulate cls self random_inputs outputs scenario_inputs false h = (Ok rs, h') →
  ∀ r, r ∈ rs → base_vals_in h' r = a.
Proof.
  intros Hself Hrun r Hr.
  apply simulate_bases in Hrun as [Hbase [clone ->]].
  rewrite Forall_forall in Hbase. unfold base_vals_in, attrs_at.
  rewrite (Hbase r Hr), lookup_app_l by (by eapply lookup_lt_Some). by rewrite Hself.
Qed.

Lemma simulate_base_vals_original_witness :
  let run := simulate Examples.example_class 0 [("d", VList [VInt 7])] ["identity"]
               (Some [("x", [VInt 1; VInt 2])]) false [Examples.example_model] in
  let r0 := {| scenario_base_vals := 0; scenario_num := 0;
               scenario_vals := [("x", VInt 1)];
               output := [("identity", VList [VInt 7])] |} in
  base_vals_in run.2 r0 = Examples.example_model.
Proof.
  intros run r0.
  apply (simulate_base_vals_original Examples.example_class 0 [Examples.example_model]
           run.2 Examples.example_model [("d", VList [VInt 7])] ["identity"]
           (Some [("x", [VInt 1; VInt 2])])
           [r0; {| scenario_base_vals := 0; scenario_num := 1;
                   scenario_vals := [("x", VInt 2)];
                   output := [("identity", VList [VInt 7])] |}]).
  - reflexivity.
  - vm_compute. reflexivity.
  - left.
Defined.

(** With read-only outputs that evaluate, the scenario loop completes: the
    clone ends with every assignment written in turn, and record [k] holds
    the outputs' values on the clone as scenario [k] finds it. *)
Lemma simulate_loop_read_only cls c outputs base grid st h a :
  (∀ o, o ∈ outputs → read_only cls o) →
  h !! c = Some a →
  (∀ a' o, a' ∈ clone_states a grid → o ∈ outputs → ∃ v, (invoke cls o a').1 = Ok v) →
  ∃ st',
    for_loop grid (simulate_scenario cls c outputs base) st h
      = (Ok st', <[c := foldl updated a grid]> h) ∧
    ∀ k a_k r, clone_states a grid !! k = Some a_k →
      st'.2 !! (length st.2 + k) = Some r →
      output_values cls a_k outputs [] = Ok (output r).
Proof.
  intros Hro. revert st h a. induction grid as [|p grid IH]; intros st h a Hc Hok; simpl.
  - exists st. by rewrite list_insert_id.
  - pose proof (lookup_lt_Some _ _ _ Hc) as Hlt.
    destruct (output_values_ok cls (updated a p) outputs []) as (raw & Hraw & _).
    { intros o Ho. apply Hok; [left|done]. }
    rewrite bind_run. unfold simulate_scenario at 1.
    erewrite bind_run_ok by (by apply update_updated).
    erewrite bind_run_ok.
    2:{ rewrite (eval_outputs_read_only _ _ _ _ _ (updated a p))
          by (done || by apply list_lookup_insert_eq).
        by rewrite Hraw. }
    simpl.
    set (r0 := {| scenario_base_vals := base; scenario_num := st.1;
                  scenario_vals := p; output := raw |}).
    destruct (IH ((st.1 + 1)%Z, st.2 ++ [r0]) (<[c := updated a p]> h) (updated a p))
      as (st' & Hloop & Hout).
    { by apply list_lookup_insert_eq. }
    { intros a' o Ha' Ho. apply Hok; [by right|done]. }
    exists st'. split; [by rewrite Hloop, list_insert_insert_eq|].
    intros [|k] a_k r Hk Hr; simpl in *.
    + injection Hk as <-.
      apply for_loop_keeps in Hloop as [rest Hrest]. simpl in Hrest.
      rewrite Hrest, <- app_assoc, Nat.add_0_r in Hr. simpl in Hr.
      rewrite list_lookup_middle in Hr by done. by injection Hr as <-.
    + apply (Hout k a_k r Hk). rewrite length_app. simpl.
      by replace (length st.2 + 1 + k) with (length st.2 + S k) by lia.
Qed.

(** With read-only outputs that evaluate in every scenario, a simulation
    over a grid returns a record per assignment; record [k] has number [k],
    the assignment, and the outputs' values on the clone of scenario [k]. *)
Lemma simulate_grid_run cls self h random_inputs outputs scenario_inputs keep grid :
  let installed := updated (attrs_at h self) random_inputs in
  create_parameter_grid scenario_inputs = Ok grid →
  (∀ o, o ∈ outputs → read_only cls o) →
  (∀ a o, a ∈ clone_states installed grid → o ∈ outputs →
     ∃ v, (invoke cls o a).1 = Ok v) →
  ∃ rs,
    (simulate cls self random_inputs outputs (Some scenario_inputs) keep h).1 = Ok rs ∧
    length rs = length grid ∧
    ∀ k params a_k,
      grid !! k = Some params → clone_states installed grid !! k = Some a_k →
      ∃ r,
        rs !! k = Some r ∧
        scenario_num r = Z.of_nat k ∧
        scenario_vals r = params ∧
        output_values cls a_k outputs [] = Ok (output r).
Proof.
  intros installed Hgrid Hro Hok.
  set (c := length h).
  set (base := if keep then c else self).
  set (h0 := <[c := installed]> (h ++ [attrs_at h self])).
  assert (Hc : h0 !! c = Some installed).
  { apply list_lookup_insert_eq. rewrite length_app. simpl. unfold c. lia. }
  destruct (simulate_loop_read_only cls c outputs base grid (0%Z, []) h0 installed
              Hro Hc Hok) as (st' & Hloop & Hout).
  destruct (simulate_loop_records _ _ _ _ _ _ _ _ _ Hloop) as (rs & -> & Hlen & _ & Hrs).
  exists rs. split_and!; [|done|].
  - unfold simulate.
    erewrite bind_run_ok by reflexivity.
    erewrite bind_run_ok.
    2:{ apply update_updated. by rewrite lookup_app_r, Nat.sub_diag. }
    erewrite bind_run_ok by apply vars_run.
    erewrite bind_run_ok by (unfold lift; by rewrite Hgrid).
    fold c installed h0 base. by erewrite bind_run_ok by exact Hloop.
  - intros k params a_k Hk Hs.
    destruct (Hrs k params Hk) as (r & Hr & Hnum & Hvals).
    exists r. split_and!; [done|by rewrite Hnum|done|].
    by apply (Hout k a_k r Hs Hr).
Qed.

(** The scenario loop of [simulate], when the outputs evaluate in every
    scenario: the output of record [k] holds the values the outputs return
    on the clone, which carries into scenario [k] what scenario [k - 1]
    left. *)
Lemma simulate_sweep cls c outputs base grid st h a :
  h !! c = Some a →
  (∀ k params a_k, grid !! k = Some params →
     carried cls outputs a grid !! k = Some a_k →
     ∃ vs, (call_outputs cls outputs (updated a_k params)).1 = Ok vs) →
  ∃ st' h',
    for_loop grid (simulate_scenario cls c outputs base) st h = (Ok st', h') ∧
    ∀ k params r, grid !! k = Some params →
      st'.2 !! (length st.2 + k) = Some r →
      ∃ a_k a' vs,
        carried cls outputs a grid !! k = Some a_k ∧
        carried cls outputs a grid !! S k = Some a' ∧
        call_outputs cls outputs (updated a_k params) = (Ok vs, a') ∧
        output r = dict_of_pairs (zip outputs vs).
Proof.
  revert st h a. induction grid as [|p grid IH]; intros st h a Hc Hok.
  - exists st, h. by split.
  - pose proof (lookup_lt_Some _ _ _ Hc) as Hlt.
    destruct (Hok 0 p a) as [vs Hvs]; [done|done|].
    destruct (call_outputs cls outputs (updated a p)) as [res a'] eqn:Hcall.
    simpl in Hvs. subst res.
    set (r0 := {| scenario_base_vals := base; scenario_num := st.1;
                  scenario_vals := p; output := dict_of_pairs (zip outputs vs) |}).
    destruct (IH ((st.1 + 1)%Z, st.2 ++ [r0]) (<[c := a']> h) a')
      as (st' & h' & Hloop & Hout).
    { by apply list_lookup_insert_eq. }
    { intros k params a_k Hk Hs. apply (Hok (S k) params a_k); [done|].
      simpl. by rewrite Hcall. }
    exists st', h'. split.
    + simpl for_loop. rewrite bind_run. unfold simulate_scenario at 1.
      erewrite bind_run_ok by (by apply update_updated).
      rewrite bind_run.
      rewrite (eval_outputs_call _ _ _ _ _ (updated a p))
        by (by apply list_lookup_insert_eq).
      rewrite Hcall, list_insert_insert_eq. simpl. exact Hloop.
    + intros [|k] params r Hk Hr; simpl in *.
      * injection Hk as <-.
        apply for_loop_keeps in Hloop as [rest Hrest]. simpl in Hrest.
        rewrite Hrest, <- app_assoc, Nat.add_0_r in Hr. simpl in Hr.
        rewrite list_lookup_middle in Hr by done. injection Hr as <-.
        exists a, a', vs. rewrite Hcall. split_and!; [done|by destruct grid|done|done].
      * rewrite Hcall. apply (Hout k params r Hk). rewrite length_app. simpl.
        by replace (length st.2 + 1 + k) with (length st.2 + S k) by lia.
Qed.

(** X5. With a scenario grid, in runs in which [update] stays the method
    (neither the model nor the clone, as a scenario finds it, has an
    attribute of that name) and the requested outputs evaluate, [simulate]
    returns one record per assignment.  One clone is reused: scenario 0
    finds it with the random inputs installed, scenario [k + 1] finds it as
    scenario [k] left it, changes made by the outputs included.  Scenario
    [k] writes its assignment over what it finds (also over a random input
    of the same name), calls the outputs in turn, and its record holds the
    assignment and, under the output names, the values returned.  When the
    outputs only read the clone, each value is the output's value on the
    attributes with the assignment written. *)
Theorem simulate_scenario_outputs (cls : model_class) (self : loc) (h : heap)
    (random_inputs : pydict value) (outputs : list string)
    (scenario_inputs : pydict (list value)) (keep_random_inputs : bool)
    (grid : list (pydict value)) :
  let installed := updated (attrs_at h self) random_inputs in
  let states := carried cls outputs installed grid in
  NoDup scenario_inputs.*1 →
  create_parameter_grid scenario_inputs = Ok grid →
  attrs_at h self !! "update" = None →
  (∀ k a, k < length grid → states !! k = Some a → a !! "update" = None) →
  (∀ k params a, grid !! k = Some params → states !! k = Some a →
     ∃ vs, (call_outputs cls outputs (updated a params)).1 = Ok vs) →
  ∃ rs,
    (simulate cls self random_inputs outputs (Some scenario_inputs)
       keep_random_inputs h).1 = Ok rs ∧
    length rs = length grid ∧
    states !! 0 = Some installed ∧
    ∀ k params, grid !! k = Some params →
      ∃ a a' vs r,
        states !! k = Some a ∧
        states !! S k = Some a' ∧
        (∀ x, x ∉ scenario_inputs.*1 → updated a params !! x = a !! x) ∧
        (∀ key v, (key, v) ∈ params → updated a params !! key = Some v) ∧
        call_outputs cls outputs (updated a params) = (Ok vs, a') ∧
        rs !! k = Some r ∧
        scenario_vals r = params ∧
        output r = dict_of_pairs (zip outputs vs) ∧
        ((∀ o, o ∈ outputs → read_only cls o) →
         a' = updated a params ∧
         Forall2 (λ o v, (invoke cls o (updated a params)).1 = Ok v) outputs vs).
Proof.
  intros installed states Hnd Hgrid _ _ Hok.
  assert (Hkeys : ∀ p, p ∈ grid → p.*1 = scenario_inputs.*1).
  { intros p Hp. by eapply grid_assignment_keys. }
  set (c := length h).
  set (base := if keep_random_inputs then c else self).
  set (h0 := <[c := installed]> (h ++ [attrs_at h self])).
  assert (Hc : h0 !! c = Some installed).
  { apply list_lookup_insert_eq. rewrite length_app. simpl. unfold c. lia. }
  destruct (simulate_sweep cls c outputs base grid (0%Z, []) h0 installed Hc Hok)
    as (st' & h' & Hloop & Hout).
  destruct (simulate_loop_records _ _ _ _ _ _ _ _ _ Hloop) as (rs & -> & Hlen & _ & Hrs).
  exists rs. split_and!; [|done|apply carried_first|].
  - unfold simulate.
    erewrite bind_run_ok by reflexivity.
    erewrite bind_run_ok.
    2:{ apply update_updated. by rewrite lookup_app_r, Nat.sub_diag. }
    erewrite bind_run_ok by apply vars_run.
    erewrite bind_run_ok by (unfold lift; by rewrite Hgrid).
    fold c installed h0 base. by erewrite bind_run_ok by exact Hloop.
  - intros k params Hk.
    destruct (Hrs k params Hk) as (r & Hr & _ & Hvals).
    destruct (Hout k params r Hk Hr) as (a & a' & vs & Hs & Hs' & Hcall & Houtput).
    assert (Hpk : params.*1 = scenario_inputs.*1)
      by (apply Hkeys; by eapply list_elem_of_lookup_2).
    exists a, a', vs, r. split_and!; [done|done| | |done|done|done|done|].
    + intros x Hx. apply updated_lookup_notin. by rewrite Hpk.
    + intros key v Hin. apply updated_lookup_in; [by rewrite Hpk|done].
    + intros Hro. by apply (call_outputs_read_only cls outputs _ vs a').
Qed.

Lemma simulate_scenario_outputs_witness :
  ∃ rs,
    (simulate Examples.counting_class 0 [("d", VList [VInt 7])] ["bump"]
       (Some [("x", [VInt 1; VInt 2])]) false [Examples.counting_model]).1 = Ok rs ∧
    length rs = 2.
Proof.
  destruct (simulate_scenario_outputs Examples.counting_class 0
              [Examples.counting_model] [("d", VList [VInt 7])] ["bump"]
              [("x", [VInt 1; VInt 2])] false [[("x", VInt 1)]; [("x", VInt 2)]])
    as (rs & Hrs & Hlen & _).
  - apply NoDup_singleton.
  - reflexivity.
  - reflexivity.
  - intros [|[|k]] a Hk Hs; [| |simpl in Hk; lia];
      (injection Hs as Ha; subst a; vm_compute; reflexivity).
  - intros [|[|k]] params a Hk Hs; [| |done];
      (injection Hk as Hp; subst params; injection Hs as Ha; subst a;
       eexists; vm_compute; reflexivity).
  - exists rs. split; [exact Hrs|exact Hlen].
Defined.

(** The reuse of the clone in a simulation: the count kept in the clone
    runs on from scenario to scenario. *)
Example simulate_counting_example :
  (simulate Examples.counting_class 0 [("d", VList [VInt 7])] ["bump"]
     (Some [("x", [VInt 1; VInt 2])]) false [Examples.counting_model]).1 =
  Ok [ {| scenario_base_vals := 0; scenario_num := 0; scenario_vals := [("x", VInt 1)];
          output := [("bump", VInt 1)] |};
       {| scenario_base_vals := 0; scenario_num := 1; scenario_vals := [("x", VInt 2)];
          output := [("bump", VInt 2)] |} ].
Proof. vm_compute. reflexivity. Qed.

(** ** The recorded baseline, in general *)

Lemma simulate_loop_heap cls c outputs base grid st h a st' h' :
  (∀ o, o ∈ outputs → read_only cls o) →
  h !! c = Some a →
  for_loop grid (simulate_scenario cls c outputs base) st h = (Ok st', h') →
  h' = <[c := foldl updated a grid]> h.
Proof.
  intros Hro. revert st h a. induction grid as [|p grid IH]; intros st h a Hc; simpl.
  - intros [= _ <-]. by rewrite list_insert_id.
  - pose proof (lookup_lt_Some _ _ _ Hc) as Hlt.
    rewrite bind_run. unfold simulate_scenario at 1.
    erewrite bind_run_ok by (by apply update_updated).
    rewrite bind_run.
    rewrite (eval_outputs_read_only _ _ _ _ _ (updated a p))
      by (done || by apply list_lookup_insert_eq).
    destruct (output_values cls (updated a p) outputs []) as [raw|e]; [|done].
    simpl. intros Hloop. apply (IH _ _ (updated a p)) in Hloop.
    + by rewrite Hloop, list_insert_insert_eq.
    + by apply list_lookup_insert_eq.
Qed.

(** Writing the assignments of a grid in turn leaves the attributes they
    do not name alone and ends with the values of the last assignment. *)
Lemma foldl_updated_last ks a grid :
  (∀ p, p ∈ grid → p.*1 = ks) →
  (∀ x, x ∉ ks → foldl updated a grid !! x = a !! x) ∧
  (NoDup ks → ∀ params key v,
     last grid = Some params → (key, v) ∈ params →
     foldl updated a grid !! key = Some v).
Proof.
  revert a. induction grid as [|p grid IH]; intros a Hkeys; [done|].
  assert (Hp : p.*1 = ks) by (apply Hkeys; left).
  destruct (IH (updated a p)) as [IH1 IH2].
  { intros p' Hp'. apply Hkeys. by right. }
  simpl. split.
  - intros x Hx. rewrite IH1 by done. apply updated_lookup_notin. by rewrite Hp.
  - intros Hnd params key v Hlast Hin. destruct grid as [|p' grid].
    + injection Hlast as <-. simpl. apply updated_lookup_in; [by rewrite Hp|done].
    + by apply (IH2 Hnd params).
Qed.

(** X6. With [keep_random_inputs] true, a scenario grid and read-only
    outputs, the [scenario_base_vals] of every record [simulate] returns is
    the clone itself: read after the call, every record, the first as well
    as the last, shows the values of the last assignment of the grid for
    the scenario inputs, and for every other attribute the value the clone
    had once the random inputs were installed. *)
Theorem simulate_base_vals_last_scenario (cls : model_class) (self : loc) (h h' : heap)
    (random_inputs : pydict value) (outputs : list string)
    (scenario_inputs : pydict (list value)) (grid : list (pydict value))
    (rs : list scenario_record) :
  let installed := updated (attrs_at h self) random_inputs in
  NoDup scenario_inputs.*1 →
  create_parameter_grid scenario_inputs = Ok grid →
  (∀ o, o ∈ outputs → read_only cls o) →
  simulate cls self random_inputs outputs (Some scenario_inputs) true h = (Ok rs, h') →
  ∀ r, r ∈ rs →
    (∀ x, x ∉ scenario_inputs.*1 → base_vals_in h' r !! x = installed !! x) ∧
    (∀ params key v, last grid = Some params → (key, v) ∈ params →
       base_vals_in h' r !! key = Some v).
Proof.
  intros installed Hnd Hgrid Hro Hrun r Hr.
  assert (Hkeys : ∀ p, p ∈ grid → p.*1 = scenario_inputs.*1).
  { intros p Hp. by eapply grid_assignment_keys. }
  destruct (simulate_bases _ _ _ _ _ _ _ _ _ Hrun) as [Hbase _].
  rewrite Forall_forall in Hbase. unfold base_vals_in. rewrite (Hbase r Hr).
  assert (Hh' : h' = <[length h := foldl updated installed grid]>
                       (<[length h := installed]> (h ++ [attrs_at h self]))).
  { revert Hrun. unfold simulate.
    erewrite bind_run_ok by reflexivity.
    erewrite bind_run_ok.
    2:{ apply update_updated. by rewrite lookup_app_r, Nat.sub_diag. }
    erewrite bind_run_ok by reflexivity.
    erewrite bind_run_ok by (unfold lift; by rewrite Hgrid).
    rewrite bind_run.
    destruct (for_loop grid _ _ _) as [[st'|e] h1] eqn:Hloop; [|done].
    intros [= _ <-]. eapply simulate_loop_heap; [done| |exact Hloop].
    apply list_lookup_insert_eq. rewrite length_app. simpl. lia. }
  assert (Hat : attrs_at h' (length h) = foldl updated installed grid).
  { unfold attrs_at. rewrite Hh', list_lookup_insert_eq; [done|].
    rewrite length_insert, length_app. simpl. lia. }
  rewrite Hat.
  destruct (foldl_updated_last scenario_inputs.*1 installed grid Hkeys) as [H1 H2].
  split; [done|]. intros params key v. by apply H2.
Qed.

Lemma simulate_base_vals_last_scenario_witness :
  let run := simulate Examples.example_class 0 [("d", VList [VInt 7])] ["identity"]
               (Some [("x", [VInt 1; VInt 2])]) true [Examples.example_model] in
  let r0 := {| scenario_base_vals := 1; scenario_num := 0;
               scenario_vals := [("x", VInt 1)];
               output := [("identity", VList [VInt 7])] |} in
  (∀ x, x ∉ [("x", [VInt 1; VInt 2])].*1 →
     base_vals_in run.2 r0 !! x
       = updated (attrs_at [Examples.example_model] 0) [("d", VList [VInt 7])] !! x) ∧
  (∀ params key v,
     last [[("x", VInt 1)]; [("x", VInt 2)]] = Some params → (key, v) ∈ params →
     base_vals_in run.2 r0 !! key = Some v).
Proof.
  intros run r0.
  apply (simulate_base_vals_last_scenario Examples.example_class 0
           [Examples.example_model] run.2 [("d", VList [VInt 7])] ["identity"]
           [("x", [VInt 1; VInt 2])] [[("x", VInt 1)]; [("x", VInt 2)]]
           [r0; {| scenario_base_vals := 1; scenario_num := 1;
                   scenario_vals := [("x", VInt 2)];
                   output := [("identity", VList [VInt 7])] |}]).
  - apply NoDup_singleton.
  - reflexivity.
  - intros o _. apply example_class_read_only.
  - vm_compute. reflexivity.
  - left.
Defined.

(** ** Degenerate grids in the drivers *)

(** X7. Given the empty mapping as scenario inputs, [data_table] and
    [simulate] raise the [ValueError] of [create_parameter_grid], after the
    clone has been made and before any output is evaluated: the heap they
    leave is the caller's heap with the clone on top and nothing else
    changed, the clone of [data_table] a copy of the model, the clone of
    [simulate] a copy with the random inputs installed. *)
Theorem drivers_reject_empty_mapping (cls : model_class) (self : loc) (h : heap)
    (random_inputs : pydict value) (outputs : list string)
    (keep_random_inputs : bool) :
  data_table cls self [] outputs h = (Raise ValueError, h ++ [attrs_at h self]) ∧
  simulate cls self random_inputs outputs (Some []) keep_random_inputs h
    = (Raise ValueError, h ++ [updated (attrs_at h self) random_inputs]).
Proof.
  split; [reflexivity|]. unfold simulate.
  erewrite bind_run_ok by reflexivity.
  erewrite bind_run_ok.
  2:{ apply update_updated. by rewrite lookup_app_r, Nat.sub_diag. }
  erewrite bind_run_ok by apply vars_run.
  rewrite bind_run. simpl. f_equal.
  replace (length h) with (length h + 0) at 1 by lia.
  by rewrite insert_app_r.
Qed.

Lemma empty_candidates_grid (scenario_inputs : pydict (list value)) key :
  (key, []) ∈ scenario_inputs → create_parameter_grid scenario_inputs = Ok [].
Proof.
  intros Hin.
  assert (Hp : product scenario_inputs.*2 = []).
  { apply product_empty_pool, list_elem_of_fmap. by exists (key, []). }
  rewrite create_parameter_grid_nonempty, Hp; [done|].
  intros ->. by apply elem_of_nil in Hin.
Qed.

(** X8. When some scenario input has no candidate value, the drivers run
    no scenario and evaluate no output, so they succeed whatever outputs
    are requested: [data_table] returns the table without rows and without
    columns, [simulate] returns the empty list, and feeding that list to
    [get_sim_results_df] raises [IndexError]. *)
Theorem drivers_on_empty_candidates (cls : model_class) (self : loc) (h : heap)
    (random_inputs : pydict value) (outputs : list string)
    (scenario_inputs : pydict (list value)) (key : string)
    (keep_random_inputs : bool) :
  (key, []) ∈ scenario_inputs →
  (data_table cls self scenario_inputs outputs h).1
    = Ok {| df_index := []; df_columns := [] |} ∧
  (simulate cls self random_inputs outputs (Some scenario_inputs)
     keep_random_inputs h).1 = Ok [] ∧
  ((simulate cls self random_inputs outputs (Some scenario_inputs)
      keep_random_inputs h).1 ≫= get_sim_results_df) = Raise IndexError.
Proof.
  intros Hgrid%empty_candidates_grid.
  assert (Hsim : (simulate cls self random_inputs outputs (Some scenario_inputs)
                    keep_random_inputs h).1 = Ok []).
  { unfold simulate.
    erewrite bind_run_ok by reflexivity.
    erewrite bind_run_ok by apply update_run.
    erewrite bind_run_ok by apply vars_run.
    erewrite bind_run_ok by (unfold lift; by rewrite Hgrid).
    reflexivity. }
  split_and!; [|done|by rewrite Hsim].
  unfold data_table.
  erewrite bind_run_ok by reflexivity.
  erewrite bind_run_ok by (unfold lift; by rewrite Hgrid).
  reflexivity.
Qed.

Lemma drivers_on_empty_candidates_witness :
  (data_table Examples.example_class 0 [("x", [VInt 1]); ("y", [])] ["missing"]
     [Examples.example_model]).1
    = Ok {| df_index := []; df_columns := [] |} ∧
  (simulate Examples.example_class 0 [] ["missing"] (Some [("x", [VInt 1]); ("y", [])])
     false [Examples.example_model]).1 = Ok [] ∧
  ((simulate Examples.example_class 0 [] ["missing"] (Some [("x", [VInt 1]); ("y", [])])
      false [Examples.example_model]).1 ≫= get_sim_results_df) = Raise IndexError.
Proof.
  apply (drivers_on_empty_candidates Examples.example_class 0 [Examples.example_model]
           [] ["missing"] [("x", [VInt 1]); ("y", [])] "y" false).
  right. left.
Defined.

(** ** Names that cannot be called *)

Lemma setattr_clone (h : heap) (a : gmap string value) key v :
  setattr (length h) key v (h ++ [a]) = (Ok (), h ++ [<[key := v]> a]).
Proof.
  unfold setattr. f_equal.
  apply list_eq. intros i. destruct (decide (i = length h)) as [->|Hne].
  - rewrite list_lookup_alter_eq, !lookup_app_r, Nat.sub_diag by done. done.
  - rewrite list_lookup_alter_ne by done.
    destruct (decide (i < length h)).
    + by rewrite !lookup_app_l.
    + rewrite !lookup_ge_None_2; [done|rewrite length_app; simpl; lia..].
Qed.

Lemma call_method_clone cls (h : heap) (a : gmap string value) name :
  call_method cls (length h) name (h ++ [a])
    = ((invoke cls name a).1, h ++ [(invoke cls name a).2]).
Proof.
  unfold call_method, attrs_at. rewrite lookup_app_r, Nat.sub_diag by done. simpl.
  destruct (invoke cls name a) as [r a']. simpl. f_equal.
  replace (length h) with (length h + 0) at 1 by lia. by rewrite insert_app_r.
Qed.

(** X9. [goal_seek] looks the objective up on the clone after it has set
    the changing input there.  An objective named like the changing input,
    or like any attribute of the model, is shadowed by that attribute and
    the call raises [TypeError]; an objective that is neither an attribute
    nor a method of the class raises [AttributeError].  Both happen at the
    first evaluation, for every interval and iteration bound. *)
Theorem goal_seek_objective_lookup `{PyArith} (cls : model_class) (self : loc)
    (h : heap) (obj_fn : string) (target : value) (by_changing : string)
    (a b : value) (N : Z) :
  (by_changing = obj_fn ∨ is_Some (attrs_at h self !! obj_fn) →
   (goal_seek cls self obj_fn target by_changing a b N h).1 = Raise TypeError) ∧
  (by_changing ≠ obj_fn → attrs_at h self !! obj_fn = None → cls obj_fn = None →
   (goal_seek cls self obj_fn target by_changing a b N h).1 = Raise AttributeError).
Proof.
  assert (Hrun : ∀ e,
    (invoke cls obj_fn (<[by_changing := a]> (attrs_at h self))).1 = Raise e →
    (goal_seek cls self obj_fn target by_changing a b N h).1 = Raise e).
  { intros e He. unfold goal_seek.
    erewrite bind_run_ok by reflexivity.
    erewrite bind_run_ok by apply setattr_clone.
    rewrite bind_run, call_method_clone, He. done. }
  split.
  - intros Hshadow. apply Hrun, invoke_shadowed.
    destruct Hshadow as [->|[v Hv]].
    + rewrite lookup_insert_eq. by eexists.
    + destruct (decide (by_changing = obj_fn)) as [->|Hne].
      * rewrite lookup_insert_eq. by eexists.
      * rewrite lookup_insert_ne by done. by eexists.
  - intros Hne Hattr Hcls. apply Hrun. unfold invoke.
    by rewrite lookup_insert_ne, Hattr, Hcls.
Qed.

Lemma goal_seek_objective_lookup_witness :
  (goal_seek (H:=PyNumber.arith) Examples.example_class 0 "x" (VInt 0) "x"
     (VInt 0) (VInt 10) 100 [Examples.example_model]).1 = Raise TypeError ∧
  (goal_seek (H:=PyNumber.arith) Examples.example_class 0 "missing" (VInt 0) "x"
     (VInt 0) (VInt 10) 100 [Examples.example_model]).1 = Raise AttributeError.
Proof.
  destruct (goal_seek_objective_lookup (H:=PyNumber.arith) Examples.example_class 0
              [Examples.example_model] "x" (VInt 0) "x" (VInt 0) (VInt 10) 100)
    as [Hshadow _].
  destruct (goal_seek_objective_lookup (H:=PyNumber.arith) Examples.example_class 0
              [Examples.example_model] "missing" (VInt 0) "x" (VInt 0) (VInt 10) 100)
    as [_ Hmissing].
  split.
  - apply Hshadow. by left.
  - apply Hmissing; [discriminate|reflexivity|reflexivity].
Defined.

(** ** The shape of a data table *)

Lemma eval_outputs_keys cls c outputs acc h d h' :
  eval_outputs cls c outputs acc h = (Ok d, h') →
  d.*1 = add_names acc.*1 outputs.
Proof.
  unfold eval_outputs, add_names. revert acc h.
  induction outputs as [|o outputs IH]; intros acc h; simpl.
  - by intros [= <- _].
  - rewrite !bind_run.
    destruct (call_method cls c o h) as [[v|e] h1]; [|done]. simpl.
    intros Hrest%IH. by rewrite Hrest, dict_set_keys.
Qed.

Lemma data_table_loop_shape cls c outputs grid results h results' h' :
  for_loop grid (data_table_scenario cls c outputs) results h = (Ok results', h') →
  ∃ rows,
    results' = results ++ rows ∧
    Forall2 (λ row p, row.*1 = add_names p.*1 outputs) rows grid.
Proof.
  revert results h. induction grid as [|p grid IH]; intros results h; simpl.
  - intros [= <- _]. exists []. by rewrite app_nil_r.
  - rewrite bind_run. unfold data_table_scenario at 1.
    rewrite bind_run, update_run. simpl. rewrite bind_run.
    destruct (eval_outputs cls c outputs p _) as [[row|e] h1] eqn:Hrow; [|done].
    simpl. intros (rows & -> & Hrows)%IH.
    exists (row :: rows). rewrite <- app_assoc. split; [done|].
    constructor; [by eapply eval_outputs_keys|done].
Qed.

(** X10. Whenever [data_table] returns, for whatever model class, the
    table has one row per combination of candidate values, labelled from 0
    on; and when it has a row at all, its columns are the scenario inputs
    in declared order followed by the requested outputs in order of first
    request, each name once. *)
Theorem data_table_shape (cls : model_class) (self : loc) (h : heap)
    (scenario_inputs : pydict (list value)) (outputs : list string) (df : frame) :
  NoDup scenario_inputs.*1 →
  (data_table cls self scenario_inputs outputs h).1 = Ok df →
  df_index df = range_index (grid_size scenario_inputs) ∧
  (0 < grid_size scenario_inputs →
   dict_keys (df_columns df) = add_names scenario_inputs.*1 outputs).
Proof.
  intros Hnd. unfold data_table.
  erewrite bind_run_ok by reflexivity.
  rewrite bind_run. unfold lift at 1.
  destruct (create_parameter_grid scenario_inputs) as [grid|e] eqn:Hgrid; [|done].
  rewrite bind_run.
  destruct (for_loop grid _ _ _) as [[rows|e] h1] eqn:Hloop; [|done].
  apply data_table_loop_shape in Hloop as (rows' & -> & Hrows). simpl in *.
  intros [= <-].
  assert (Hlen : length grid = grid_size scenario_inputs).
  { destruct (decide (scenario_inputs = [])) as [->|Hne]; [done|].
    rewrite create_parameter_grid_nonempty in Hgrid by done. injection Hgrid as <-.
    by rewrite length_fmap, product_length, grid_size_pools. }
  assert (Hkeys : ∀ row, row ∈ rows' → dict_keys row = add_names scenario_inputs.*1 outputs).
  { intros row [i Hi]%list_elem_of_lookup.
    destruct (Forall2_lookup_l _ _ _ _ _ Hrows Hi) as (p & Hp & Hrow).
    unfold dict_keys. rewrite Hrow.
    by rewrite (grid_assignment_keys scenario_inputs grid p Hnd Hgrid)
      by (by eapply list_elem_of_lookup_2). }
  simpl. split.
  - by rewrite (Forall2_length _ _ _ Hrows), Hlen.
  - intros Hpos. unfold dict_keys at 1.
    rewrite <- list_fmap_compose.
    rewrite (ordered_union_same rows' dict_keys (add_names scenario_inputs.*1 outputs)).
    + rewrite <- (list_fmap_id (add_names _ _)) at 2. by apply list_fmap_ext.
    + intros ->. apply Forall2_length in Hrows. simpl in Hrows. lia.
    + by apply add_names_nodup.
    + done.
Qed.

Lemma data_table_shape_witness :
  let df := {| df_index := [0%Z; 1%Z];
               df_columns := [("x", [VInt 1; VInt 2]);
                              ("double", [VInt 2; VInt 4])] |} in
  df_index df = range_index (grid_size [("x", [VInt 1; VInt 2])]) ∧
  (0 < grid_size [("x", [VInt 1; VInt 2])] →
   dict_keys (df_columns df) = add_names [("x", [VInt 1; VInt 2])].*1 ["double"; "double"]).
Proof.
  intros df.
  apply (data_table_shape Examples.example_class 0 [Examples.example_model]
           [("x", [VInt 1; VInt 2])] ["double"; "double"] df).
  - apply NoDup_singleton.
  - vm_compute. reflexivity.
Defined.

(** ** Results depend on the model's attributes only *)

Lemma res_rel_eq {A} (r1 r2 : res A) : res_rel eq r1 r2 ↔ r1 = r2.
Proof.
  destruct r1, r2; simpl; split; try done; try congruence.
Qed.

Lemma setattr_run c key v h a :
  h !! c = Some a → setattr c key v h = (Ok (), <[c := <[key := v]> a]> h).
Proof.
  intros Hc. unfold setattr. f_equal.
  apply list_eq. intros i. destruct (decide (i = c)) as [->|Hne].
  - rewrite list_lookup_alter_eq, list_lookup_insert_eq, Hc; [done|].
    by eapply lookup_lt_Some.
  - by rewrite list_lookup_alter_ne, list_lookup_insert_ne.
Qed.

Section SameRun.
Context (c1 c2 : loc).

Lemma same_run_ret {A B} (R : A → B → Prop) x y :
  R x y → same_run R c1 c2 (mret x) (mret y).
Proof.
  intros HR h1 h2 a H1 H2. exists a. simpl. by rewrite !list_insert_id.
Qed.

Lemma same_run_lift {A B} (R : A → B → Prop) r1 r2 :
  res_rel R r1 r2 → same_run R c1 c2 (lift r1) (lift r2).
Proof.
  intros HR h1 h2 a H1 H2. exists a. simpl. by rewrite !list_insert_id.
Qed.

Lemma same_run_bind {A B A' B'} (R : A → B → Prop) (R' : A' → B' → Prop)
    (m1 : M A) (m2 : M B) (k1 : A → M A') (k2 : B → M B') :
  same_run R c1 c2 m1 m2 →
  (∀ x y, R x y → same_run R' c1 c2 (k1 x) (k2 y)) →
  same_run R' c1 c2 (m1 ≫= k1) (m2 ≫= k2).
Proof.
  intros Hm Hk h1 h2 a H1 H2.
  destruct (Hm h1 h2 a H1 H2) as (a1 & E1 & E2 & Hr). rewrite !bind_run.
  destruct (m1 h1) as [[x|e] h1'], (m2 h2) as [[y|e'] h2'];
    simpl in *; subst; try done.
  - destruct (Hk x y Hr (<[c1:=a1]> h1) (<[c2:=a1]> h2) a1) as (a2 & F1 & F2 & Hr').
    { apply list_lookup_insert_eq. by eapply lookup_lt_Some. }
    { apply list_lookup_insert_eq. by eapply lookup_lt_Some. }
    exists a2. by rewrite F1, F2, !list_insert_insert_eq.
  - by exists a1.
Qed.

Lemma same_run_for_loop {A S1 S2} (R : S1 → S2 → Prop) (xs : list A)
    (body1 : A → S1 → M S1) (body2 : A → S2 → M S2) s1 s2 :
  (∀ x s1 s2, R s1 s2 → same_run R c1 c2 (body1 x s1) (body2 x s2)) →
  R s1 s2 →
  same_run R c1 c2 (for_loop xs body1 s1) (for_loop xs body2 s2).
Proof.
  intros Hbody. revert s1 s2. induction xs as [|x xs IH]; intros s1 s2 HR; simpl.
  - by apply same_run_ret.
  - eapply same_run_bind; [by apply Hbody|]. intros. by apply IH.
Qed.

Lemma same_run_setattr key v :
  same_run eq c1 c2 (setattr c1 key v) (setattr c2 key v).
Proof.
  intros h1 h2 a H1 H2. exists (<[key := v]> a).
  by rewrite (setattr_run c1 key v h1 a), (setattr_run c2 key v h2 a).
Qed.

Lemma same_run_call_method cls name :
  same_run eq c1 c2 (call_method cls c1 name) (call_method cls c2 name).
Proof.
  intros h1 h2 a H1 H2. unfold call_method, attrs_at. rewrite H1, H2. simpl.
  destruct (invoke cls name a) as [r a']. exists a'. simpl.
  split_and!; [done|done|]. by apply res_rel_eq.
Qed.

Lemma same_run_update params :
  same_run eq c1 c2 (update c1 params) (update c2 params).
Proof.
  apply same_run_for_loop; [|done]. intros [key v] [] [] _. apply same_run_setattr.
Qed.

Lemma same_run_eval_outputs cls outputs acc :
  same_run eq c1 c2 (eval_outputs cls c1 outputs acc) (eval_outputs cls c2 outputs acc).
Proof.
  apply same_run_for_loop; [|done]. intros o d ? <-.
  eapply same_run_bind; [apply same_run_call_method|].
  intros v ? <-. by apply same_run_ret.
Qed.

Lemma same_run_bisection_loop `{PyArith} cls obj_fn target by_changing n a b :
  same_run eq c1 c2
    (bisection_loop cls c1 obj_fn target by_changing n a b)
    (bisection_loop cls c2 obj_fn target by_changing n a b).
Proof.
  revert a b. induction n as [|n IH]; intros a b; simpl.
  - by apply same_run_lift, res_rel_eq.
  - repeat first
      [ eapply same_run_bind;
          [first [ by apply same_run_lift, res_rel_eq
                 | apply same_run_setattr | apply same_run_call_method ]
          |intros ?? <-]
      | by apply same_run_ret
      | apply IH | case_match ].
Qed.
End SameRun.

(** Two drivers that clone models with equal attributes and then run alike
    on their clones agree on the outcome. *)
Lemma clone_runs {A B} (R : A → B → Prop) s1 s2 (rest1 : loc → M A) (rest2 : loc → M B)
    (h1 h2 : heap) :
  attrs_at h1 s1 = attrs_at h2 s2 →
  same_run R (length h1) (length h2) (rest1 (length h1)) (rest2 (length h2)) →
  res_rel R ((deepcopy s1 ≫= rest1) h1).1 ((deepcopy s2 ≫= rest2) h2).1.
Proof.
  intros Ha Hrest. rewrite !bind_run. simpl.
  destruct (Hrest (h1 ++ [attrs_at h1 s1]) (h2 ++ [attrs_at h2 s2]) (attrs_at h1 s1))
    as (a' & _ & _ & Hr); [..|done].
  - by rewrite lookup_app_r, Nat.sub_diag.
  - by rewrite lookup_app_r, Nat.sub_diag, Ha.
Qed.

Lemma data_table_agree cls s1 s2 h1 h2 scenario_inputs outputs :
  attrs_at h1 s1 = attrs_at h2 s2 →
  (data_table cls s1 scenario_inputs outputs h1).1
    = (data_table cls s2 scenario_inputs outputs h2).1.
Proof.
  intros Ha. apply res_rel_eq. apply clone_runs; [done|].
  eapply same_run_bind; [by apply same_run_lift, res_rel_eq|]. intros grid ? <-.
  eapply (same_run_bind _ _ eq); [|intros rows ? <-; by apply same_run_ret].
  apply same_run_for_loop; [|done]. intros params results ? <-.
  eapply same_run_bind; [apply same_run_update|]. intros _ _ _.
  eapply same_run_bind; [apply same_run_eval_outputs|].
  intros row ? <-. by apply same_run_ret.
Qed.

Lemma goal_seek_agree `{PyArith} cls s1 s2 h1 h2 obj_fn target by_changing a b N :
  attrs_at h1 s1 = attrs_at h2 s2 →
  (goal_seek cls s1 obj_fn target by_changing a b N h1).1
    = (goal_seek cls s2 obj_fn target by_changing a b N h2).1.
Proof.
  intros Ha. apply res_rel_eq. apply clone_runs; [done|].
  repeat first
    [ eapply same_run_bind;
        [first [ by apply same_run_lift, res_rel_eq
               | apply same_run_setattr | apply same_run_call_method ]
        |intros ?? <-]
    | by apply same_run_ret
    | apply same_run_bisection_loop | case_match ].
Qed.

Lemma simulate_agree cls s1 s2 h1 h2 random_inputs outputs scenario_inputs keep :
  attrs_at h1 s1 = attrs_at h2 s2 →
  res_rel (Forall2 (λ r1 r2, record_data r1 = record_data r2))
    (simulate cls s1 random_inputs outputs scenario_inputs keep h1).1
    (simulate cls s2 random_inputs outputs scenario_inputs keep h2).1.
Proof.
  intros Ha. apply clone_runs; [done|].
  eapply same_run_bind; [apply same_run_update|]. intros _ _ _.
  eapply (same_run_bind _ _ (λ _ _, True));
    [destruct keep; by apply same_run_ret|]. intros base1 base2 _.
  destruct scenario_inputs as [si|].
  - eapply same_run_bind; [by apply same_run_lift, res_rel_eq|]. intros grid ? <-.
    eapply (same_run_bind _ _
              (λ st1 st2, st1.1 = st2.1 ∧
                 Forall2 (λ r1 r2, record_data r1 = record_data r2) st1.2 st2.2)).
    + apply same_run_for_loop; [|by split].
      intros params st1 st2 [Hnum Hrs]. unfold simulate_scenario.
      eapply same_run_bind; [apply same_run_update|]. intros _ _ _.
      eapply same_run_bind; [apply same_run_eval_outputs|]. intros raw ? <-.
      apply same_run_ret. simpl. split; [by rewrite Hnum|].
      apply Forall2_app; [done|]. constructor; [|done].
      unfold record_data. simpl. by rewrite Hnum.
    + intros st1 st2 [_ Hrs]. by apply same_run_ret.
  - eapply same_run_bind; [apply same_run_eval_outputs|]. intros raw ? <-.
    apply same_run_ret. by repeat constructor.
Qed.

(** X11. The outcome of a driver, a result or an exception, is a function
    of the model's attributes and the arguments: run on two models with
    equal attributes, in whatever heaps, [data_table] and [goal_seek] give
    equal outcomes, and [simulate] gives records with equal scenario
    numbers, scenario values and outputs. *)
Theorem drivers_depend_on_attributes `{PyArith} (cls : model_class)
    (s1 s2 : loc) (h1 h2 : heap)
    (scenario_inputs : pydict (list value)) (outputs : list string)
    (random_inputs : pydict value) (grid : option (pydict (list value)))
    (keep_random_inputs : bool)
    (obj_fn by_changing : string) (target lo hi : value) (N : Z) :
  attrs_at h1 s1 = attrs_at h2 s2 →
  (data_table cls s1 scenario_inputs outputs h1).1
    = (data_table cls s2 scenario_inputs outputs h2).1 ∧
  (goal_seek cls s1 obj_fn target by_changing lo hi N h1).1
    = (goal_seek cls s2 obj_fn target by_changing lo hi N h2).1 ∧
  res_rel (Forall2 (λ r1 r2, record_data r1 = record_data r2))
    (simulate cls s1 random_inputs outputs grid keep_random_inputs h1).1
    (simulate cls s2 random_inputs outputs grid keep_random_inputs h2).1.
Proof.
  intros Ha. split_and!.
  - by apply data_table_agree.
  - by apply goal_seek_agree.
  - by apply simulate_agree.
Qed.

Lemma drivers_depend_on_attributes_witness :
  let h1 := [Examples.example_model] in
  let h2 := [∅; Examples.example_model; ∅] in
  (data_table Examples.example_class 0 [("x", [VInt 1; VInt 2])] ["double"] h1).1
    = (data_table Examples.example_class 1 [("x", [VInt 1; VInt 2])] ["double"] h2).1 ∧
  (goal_seek (H:=PyNumber.arith) Examples.example_class 0 "offset" (VInt 0) "x"
     (VInt 0) (VInt 10) 100 h1).1
    = (goal_seek (H:=PyNumber.arith) Examples.example_class 1 "offset" (VInt 0) "x"
         (VInt 0) (VInt 10) 100 h2).1 ∧
  res_rel (Forall2 (λ r1 r2, record_data r1 = record_data r2))
    (simulate Examples.example_class 0 [("d", VList [VInt 7])] ["double"] None true h1).1
    (simulate Examples.example_class 1 [("d", VList [VInt 7])] ["double"] None true h2).1.
Proof.
  apply (drivers_depend_on_attributes (H:=PyNumber.arith) Examples.example_class 0 1
           [Examples.example_model] [∅; Examples.example_model; ∅]
           [("x", [VInt 1; VInt 2])] ["double"] [("d", VList [VInt 7])] None true
           "offset" "x" (VInt 0) (VInt 0) (VInt 10) 100).
  reflexivity.
Defined.

(** X12. Experiments can be repeated: calling a driver again on the same
    model, in the heap the first call left behind, gives the outcome of the
    first call. *)
Theorem drivers_repeatable `{PyArith} (cls : model_class) (self : loc) (h : heap)
    (a : gmap string value)
    (scenario_inputs : pydict (list value)) (outputs : list string)
    (random_inputs : pydict value) (grid : option (pydict (list value)))
    (keep_random_inputs : bool)
    (obj_fn by_changing : string) (target lo hi : value) (N : Z) :
  h !! self = Some a →
  let table := data_table cls self scenario_inputs outputs in
  let seek := goal_seek cls self obj_fn target by_changing lo hi N in
  let sim := simulate cls self random_inputs outputs grid keep_random_inputs in
  (table (table h).2).1 = (table h).1 ∧
  (seek (seek h).2).1 = (seek h).1 ∧
  res_rel (Forall2 (λ r1 r2, record_data r1 = record_data r2))
    (sim (sim h).2).1 (sim h).1.
Proof.
  intros Hself. cbv zeta.
  assert (Hkept : ∀ clone, attrs_at (h ++ [clone]) self = attrs_at h self).
  { intros clone. unfold attrs_at.
    by rewrite lookup_app_l by (by eapply lookup_lt_Some). }
  destruct (data_table_writes cls self scenario_inputs outputs h) as [c1 H1].
  destruct (goal_seek_writes cls self obj_fn target by_changing lo hi N h) as [c2 H2].
  destruct (simulate_writes cls self random_inputs outputs grid keep_random_inputs h)
    as [c3 H3].
  split_and!.
  - apply data_table_agree. by rewrite H1.
  - apply goal_seek_agree. by rewrite H2.
  - apply simulate_agree. by rewrite H3.
Qed.

Lemma drivers_repeatable_witness :
  let h := [Examples.example_model] in
  let table := data_table Examples.example_class 0 [("x", [VInt 1; VInt 2])] ["double"] in
  let seek := goal_seek (H:=PyNumber.arith) Examples.example_class 0 "offset" (VInt 0)
                "x" (VInt 0) (VInt 10) 100 in
  let sim := simulate Examples.example_class 0 [("d", VList [VInt 7])] ["double"]
               None true in
  (table (table h).2).1 = (table h).1 ∧
  (seek (seek h).2).1 = (seek h).1 ∧
  res_rel (Forall2 (λ r1 r2, record_data r1 = record_data r2))
    (sim (sim h).2).1 (sim h).1.
Proof.
  apply (drivers_repeatable (H:=PyNumber.arith) Examples.example_class 0
           [Examples.example_model] Examples.example_model
           [("x", [VInt 1; VInt 2])] ["double"] [("d", VList [VInt 7])] None true
           "offset" "x" (VInt 0) (VInt 0) (VInt 10) 100).
  reflexivity.
Defined.

(** ** Flattening: row labels and ragged outputs *)

Lemma res_for_app {A S} (xs ys : list A) (body : A → S → res S) s :
  res_for (xs ++ ys) body s = res_for xs body s ≫= res_for ys body.
Proof.
  revert s. induction xs as [|x xs IH]; intros s; simpl; [done|].
  destruct (body x s) as [s'|e]; simpl; [apply IH|done].
Qed.

(** X13. For a non-empty list of records with output arrays of the
    record's replication count and scalar scenario values,
    [get_sim_results_df] keeps the row labels of the tables it stacks: the
    labels run from 0 to the replication count within every record and
    start again at 0 with the next record, so a label identifies a row only
    together with the scenario number. *)
Theorem get_sim_results_df_index (results : list scenario_record) :
  results ≠ [] →
  (∀ r, r ∈ results → flat_record r) →
  ∃ df,
    get_sim_results_df results = Ok df ∧
    df_index df = results ≫= (λ r, range_index (replications r)).
Proof.
  intros Hne Hflat. unfold get_sim_results_df.
  rewrite collect_frames by done. simpl.
  destruct results as [|r0 [|r1 rest]]; [done| |].
  - rewrite decide_False by (simpl; lia). simpl.
    eexists. split; [done|]. simpl. by rewrite app_nil_r.
  - rewrite decide_True by (simpl; lia).
    eexists. split; [done|]. unfold concat_frames. simpl df_index.
    by rewrite bind_after_fmap.
Qed.

Lemma get_sim_results_df_index_witness :
  let r0 := {| scenario_base_vals := 0; scenario_num := 0;
               scenario_vals := [("x", VInt 1)];
               output := [("profit", VList [VInt 10; VInt 20])] |} in
  let r1 := {| scenario_base_vals := 0; scenario_num := 1;
               scenario_vals := [("x", VInt 2)];
               output := [("profit", VList [VInt 30; VInt 40])] |} in
  ∃ df,
    get_sim_results_df [r0; r1] = Ok df ∧
    df_index df = [r0; r1] ≫= (λ r, range_index (replications r)).
Proof.
  intros r0 r1. apply (get_sim_results_df_index [r0; r1]).
  - discriminate.
  - intros r Hr.
    repeat (apply elem_of_cons in Hr as [->|Hr]); [..|by apply elem_of_nil in Hr];
      (split_and!; [apply NoDup_singleton|apply NoDup_singleton| |];
       repeat constructor).
Defined.

(** The row labels of the example: 0, 1 and again 0, 1. *)
Example stacked_labels_example :
  ∃ df,
    get_sim_results_df
      [ {| scenario_base_vals := 0; scenario_num := 0; scenario_vals := [("x", VInt 1)];
           output := [("profit", VList [VInt 10; VInt 20])] |};
        {| scenario_base_vals := 0; scenario_num := 1; scenario_vals := [("x", VInt 2)];
           output := [("profit", VList [VInt 30; VInt 40])] |} ] = Ok df ∧
    df_index df = [0%Z; 1%Z; 0%Z; 1%Z].
Proof. eexists. split; [vm_compute; reflexivity|]. reflexivity. Qed.

Lemma DataFrame_dict_ragged (data : pydict value) k1 l1 k2 l2 :
  (k1, VList l1) ∈ data → (k2, VList l2) ∈ data → length l1 ≠ length l2 →
  DataFrame_dict data = Raise ValueError.
Proof.
  intros H1 H2 Hne. unfold DataFrame_dict.
  assert (Hin : ∀ k l, (k, VList l) ∈ data → length l ∈ omap array_len data.*2).
  { intros k l Hl. apply list_elem_of_omap. exists (VList l). split; [|done].
    apply list_elem_of_fmap. by exists (k, VList l). }
  pose proof (Hin k1 l1 H1) as Hn1. pose proof (Hin k2 l2 H2) as Hn2.
  destruct (omap array_len data.*2) as [|n ns]; [by apply elem_of_nil in Hn1|].
  destruct (forallb (Nat.eqb n) ns) eqn:Hall; [|done].
  rewrite forallb_forall in Hall.
  assert (Heq : ∀ m, m ∈ n :: ns → m = n).
  { intros m [->|Hm]%elem_of_cons; [done|].
    apply list_elem_of_In, Hall in Hm. symmetry. by apply Nat.eqb_eq. }
  rewrite (Heq _ Hn1), (Heq _ Hn2) in Hne. done.
Qed.

(** X14. A record in which two output arrays differ in length makes
    [get_sim_results_df] raise [ValueError], the error of the table
    constructor, when the records before it are well-formed; the records
    after it are not looked at. *)
Theorem get_sim_results_df_ragged_outputs (pre post : list scenario_record)
    (r : scenario_record) (k1 k2 : string) (l1 l2 : list value) :
  (∀ r', r' ∈ pre → flat_record r') →
  (k1, VList l1) ∈ output r →
  (k2, VList l2) ∈ output r →
  length l1 ≠ length l2 →
  get_sim_results_df (pre ++ r :: post) = Raise ValueError.
Proof.
  intros Hflat H1 H2 Hne. unfold get_sim_results_df.
  rewrite res_for_app, collect_frames by done. simpl.
  unfold frame_of_record. by rewrite (DataFrame_dict_ragged _ k1 l1 k2 l2).
Qed.

Lemma get_sim_results_df_ragged_outputs_witness :
  get_sim_results_df
    ([ {| scenario_base_vals := 0; scenario_num := 0; scenario_vals := [];
          output := [("profit", VList [VInt 10; VInt 20])] |} ] ++
     {| scenario_base_vals := 0; scenario_num := 1; scenario_vals := [];
        output := [("profit", VList [VInt 30; VInt 40]); ("cost", VList [VInt 5])] |}
     :: []) = Raise ValueError.
Proof.
  apply (get_sim_results_df_ragged_outputs _ _ _ "profit" "cost"
           [VInt 30; VInt 40] [VInt 5]).
  - intros r' ->%list_elem_of_singleton.
    split_and!; [apply NoDup_singleton|apply NoDup_nil_2| |]; repeat constructor.
  - left.
  - right. left.
  - simpl. lia.
Defined.

(** ** From a simulation to its table *)

Section DictLookups.
Context {V : Type}.
Implicit Types (d : pydict V) (k : string) (v : V).

Lemma dict_get_fmap {W} (g : V → W) k d :
  dict_get k (prod_map id g <$> d) = g <$> dict_get k d.
Proof.
  induction d as [|[k' v'] d IH]; csimpl; [done|]. by destruct (decide (k = k')).
Qed.

Lemma dict_get_update_notin k d1 d2 :
  k ∉ d2.*1 → dict_get k (dict_update d1 d2) = dict_get k d1.
Proof.
  unfold dict_update. revert d1.
  induction d2 as [|[k' v'] d2 IH]; intros d1; csimpl; [done|].
  intros [Hne Hk]%not_elem_of_cons. rewrite IH by done.
  by apply dict_get_set_ne.
Qed.

Lemma dict_get_update_in k v d1 d2 :
  NoDup d2.*1 → (k, v) ∈ d2 → dict_get k (dict_update d1 d2) = Some v.
Proof.
  revert d1. induction d2 as [|[k' v'] d2 IH]; intros d1; csimpl.
  - by intros _ ?%elem_of_nil.
  - intros [Hk' Hnd]%NoDup_cons [[= -> ->]|Hin]%elem_of_cons.
    + pose proof (dict_get_update_notin k' (dict_set k' v' d1) d2 Hk') as Hget.
      unfold dict_update in *. simpl. rewrite Hget. apply dict_get_set_eq.
    + unfold dict_update in *. simpl. by apply IH.
Qed.
End DictLookups.

Section Chunks.
Context {A B : Type} (f : A → list B) (n : nat).

Lemma bind_length_uniform (xs : list A) :
  (∀ x, x ∈ xs → length (f x) = n) → length (xs ≫= f) = length xs * n.
Proof.
  induction xs as [|x xs IH]; intros Hlen; csimpl; [done|].
  rewrite length_app, Hlen by left. rewrite IH; [done|].
  intros y Hy. apply Hlen. by right.
Qed.

Lemma bind_lookup_uniform (xs : list A) k x i :
  (∀ x, x ∈ xs → length (f x) = n) →
  xs !! k = Some x → i < n →
  (xs ≫= f) !! (k * n + i) = f x !! i.
Proof.
  revert k. induction xs as [|x0 xs IH]; intros k Hlen Hk Hi; [done|].
  rewrite bind_cons. destruct k as [|k]; simpl in *.
  - injection Hk as ->. apply lookup_app_l. rewrite Hlen by left. done.
  - rewrite lookup_app_r; rewrite Hlen by left; [|lia].
    replace (n + k * n + i - n) with (k * n + i) by lia.
    apply IH; [|done|done]. intros y Hy. apply Hlen. by right.
Qed.
End Chunks.

Lemma clone_states_length a grid : length (clone_states a grid) = length grid.
Proof. revert a. induction grid as [|p grid IH]; intros a; simpl; [done|]. by rewrite IH. Qed.

(** The column names of a record depend on the names of its outputs and
    of its scenario values only. *)
Lemma record_columns_keys r :
  record_columns r =
    add_names
      (if decide ("scenario_num" ∈ (output r).*1) then (output r).*1
       else (output r).*1 ++ ["scenario_num"])
      (scenario_vals r).*1.
Proof.
  unfold record_columns, record_row, dict_keys.
  by rewrite dict_update_keys, dict_set_keys, fmap_keys.
Qed.

(** The rows of the table of well-formed records with the same columns. *)
Lemma flattened_rows (results : list scenario_record) :
  results ≠ [] →
  (∀ r, r ∈ results → flat_record r) →
  (∀ r r', r ∈ results → r' ∈ results → record_columns r = record_columns r') →
  ∃ df, get_sim_results_df results = Ok df ∧ frame_rows df = results ≫= record_rows.
Proof.
  intros Hne Hflat Hcols. unfold get_sim_results_df.
  rewrite collect_frames by done. simpl.
  destruct results as [|r0 [|r1 rest]]; [done| |].
  - rewrite decide_False by (simpl; lia). simpl.
    exists (record_frame r0). split; [done|].
    rewrite record_frame_rows. csimpl. by rewrite app_nil_r.
  - rewrite decide_True by (simpl; lia).
    destruct (concat_frames_rows (record_columns r0)
                (record_frame <$> r0 :: r1 :: rest)) as [_ Hrows].
    + done.
    + apply record_columns_nodup, Hflat. left.
    + apply Forall_fmap, Forall_forall. intros r Hr. simpl.
      by apply record_frame_rectangular, Hflat.
    + intros df (r & -> & Hr)%list_elem_of_fmap.
      rewrite record_frame_keys. apply Hcols; [done|left].
    + eexists. split; [done|]. rewrite Hrows, bind_after_fmap.
      apply Forall_bind_ext, Forall_forall. intros r _. apply record_frame_rows.
Qed.

Lemma head_array_len (vs : list value) n :
  vs ≠ [] → Forall (λ v, array_len v = Some n) vs →
  head (omap array_len vs) = Some n.
Proof.
  intros Hne Hvs. destruct vs as [|v vs]; [done|].
  apply Forall_cons in Hvs as [Hv _]. simpl. by rewrite Hv.
Qed.

(** X15. Simulating over a scenario grid and flattening the result: when
    [update] stays the method (no attribute of that name on the model, among
    the random inputs or among the scenario inputs), the candidate values
    are scalars and the requested outputs, at least one, are read-only and
    return an array of [n] replications in every scenario,
    [get_sim_results_df] applied to the records of [simulate] returns a
    table of [n] rows per scenario, scenario after scenario.
    Row [i] of scenario [k] holds the scenario's number [k], the values of
    its assignment, and for each output the [i]-th element of the array
    that output returns on the clone of scenario [k]. *)
Theorem simulate_then_flatten (cls : model_class) (self : loc) (h : heap)
    (random_inputs : pydict value) (outputs : list string)
    (scenario_inputs : pydict (list value)) (keep_random_inputs : bool)
    (grid : list (pydict value)) (n : nat) :
  let installed := updated (attrs_at h self) random_inputs in
  NoDup scenario_inputs.*1 →
  create_parameter_grid scenario_inputs = Ok grid →
  installed !! "update" = None →
  "update" ∉ scenario_inputs.*1 →
  grid ≠ [] →
  outputs ≠ [] →
  Forall (λ kv, Forall (λ v, array_len v = None) kv.2) scenario_inputs →
  (∀ o, o ∈ outputs → read_only cls o) →
  (∀ a o, a ∈ clone_states installed grid → o ∈ outputs →
     ∃ l, (invoke cls o a).1 = Ok (VList l) ∧ length l = n) →
  ∃ df,
    ((simulate cls self random_inputs outputs (Some scenario_inputs)
        keep_random_inputs h).1 ≫= get_sim_results_df) = Ok df ∧
    length (frame_rows df) = length grid * n ∧
    ∀ k i params a_k,
      grid !! k = Some params → clone_states installed grid !! k = Some a_k → i < n →
      ∃ row,
        frame_rows df !! (k * n + i) = Some row ∧
        (∀ key v, (key, v) ∈ params → dict_get key row = Some v) ∧
        ("scenario_num" ∉ scenario_inputs.*1 →
         dict_get "scenario_num" row = Some (VInt (Z.of_nat k))) ∧
        (∀ o, o ∈ outputs → o ≠ "scenario_num" →
           ∃ l x, (invoke cls o a_k).1 = Ok (VList l) ∧ l !! i = Some x ∧
                  dict_get o row = Some x).
Proof.
  intros installed Hnd Hgrid _ _ Hgne Hone Hscalar Hro Harr.
  assert (Hok : ∀ a o, a ∈ clone_states installed grid → o ∈ outputs →
            ∃ v, (invoke cls o a).1 = Ok v).
  { intros a o Ha Ho. destruct (Harr a o Ha Ho) as (l & Hl & _). by eexists. }
  assert (Hkeys : ∀ p, p ∈ grid → p.*1 = scenario_inputs.*1).
  { intros p Hp. by eapply grid_assignment_keys. }
  destruct (simulate_grid_run cls self h random_inputs outputs scenario_inputs
              keep_random_inputs grid Hgrid Hro Hok) as (rs & Hrun & Hlen & Hrs).
  (* what every record holds *)
  assert (Hrec : ∀ k r, rs !! k = Some r →
            ∃ params a_k,
              grid !! k = Some params ∧ clone_states installed grid !! k = Some a_k ∧
              scenario_num r = Z.of_nat k ∧ scenario_vals r = params ∧
              (output r).*1 = ordered_union outputs ∧
              NoDup (output r).*1 ∧
              ∀ o, o ∈ outputs →
                ∃ l, dict_get o (output r) = Some (VList l) ∧
                     (invoke cls o a_k).1 = Ok (VList l) ∧ length l = n).
  { intros k r Hr. pose proof (lookup_lt_Some _ _ _ Hr) as Hk. rewrite Hlen in Hk.
    destruct (lookup_lt_is_Some_2 grid k Hk) as [params Hp].
    destruct (lookup_lt_is_Some_2 (clone_states installed grid) k) as [a_k Hs];
      [by rewrite clone_states_length|].
    destruct (Hrs k params a_k Hp Hs) as (r' & Hr' & Hnum & Hvals & Hout).
    rewrite Hr in Hr'. injection Hr' as <-.
    destruct (output_values_ok cls a_k outputs []) as (d & Hd & Hdk & Hdv & _).
    { intros o Ho. apply (Hok a_k o); [by eapply list_elem_of_lookup_2|done]. }
    rewrite Hout in Hd. injection Hd as <-.
    exists params, a_k. split_and!; [done..| |].
    - rewrite Hdk. apply add_names_nodup, NoDup_nil_2.
    - intros o Ho. destruct (Hdv o Ho) as (v & Hv & Hinv).
      destruct (Harr a_k o) as (l & Hl & Hn); [by eapply list_elem_of_lookup_2|done|].
      rewrite Hl in Hinv. injection Hinv as <-. by exists l. }
  assert (Hunion : ∀ o, o ∈ ordered_union outputs ↔ o ∈ outputs).
  { intros o. unfold ordered_union. rewrite add_names_elem, elem_of_nil. tauto. }
  assert (Hflat : ∀ r, r ∈ rs → flat_record r ∧ replications r = n).
  { intros r [k Hr]%list_elem_of_lookup.
    destruct (Hrec k r Hr) as (params & a_k & Hp & Hs & Hnum & Hvals & Hdk & Hdnd & Hdv).
    assert (Harrays : Forall (λ v, array_len v = Some n) (output r).*2).
    { apply Forall_fmap, Forall_forall. intros [key v] Hin. simpl.
      assert (Hkey : key ∈ outputs).
      { apply Hunion. rewrite <- Hdk. apply list_elem_of_fmap. by exists (key, v). }
      destruct (Hdv key Hkey) as (l & Hget & _ & Hl).
      rewrite (dict_get_elem key v (output r) Hdnd Hin) in Hget.
      injection Hget as ->. simpl. by rewrite Hl. }
    assert (Hrep : replications r = n).
    { unfold replications. rewrite (head_array_len _ n); [done| |done].
      destruct outputs as [|o outputs']; [done|].
      assert (Ho : o ∈ (output r).*1) by (rewrite Hdk; apply Hunion; left).
      intros Hnil. apply (f_equal length) in Hnil. rewrite length_fmap in Hnil.
      apply list_elem_of_fmap in Ho as ([? ?] & _ & Ho).
      destruct (output r); [by apply elem_of_nil in Ho|done]. }
    split; [|done]. split_and!; [done| |by rewrite Hrep|].
    - rewrite Hvals, (Hkeys params); [done|]. by eapply list_elem_of_lookup_2.
    - rewrite Hvals.
      assert (Hp' : params ∈ grid) by (by eapply list_elem_of_lookup_2).
      apply (grid_elem scenario_inputs grid params Hnd Hgrid) in Hp'.
      clear -Hp' Hscalar. induction Hp' as [|[k v] [k' vs] ps si [_ Hv] _ IH]; csimpl.
      + constructor.
      + apply Forall_cons in Hscalar as [Hvs Hscalar]. simpl in *.
        constructor; [|by apply IH].
        rewrite Forall_forall in Hvs. by apply Hvs. }
  assert (Hcols : ∀ r r', r ∈ rs → r' ∈ rs → record_columns r = record_columns r').
  { assert (Hone_r : ∀ r, r ∈ rs →
              (output r).*1 = ordered_union outputs ∧
              (scenario_vals r).*1 = scenario_inputs.*1).
    { intros r [k Hr]%list_elem_of_lookup.
      destruct (Hrec k r Hr) as (params & a_k & Hp & _ & _ & Hvals & Hdk & _).
      split; [done|]. rewrite Hvals. apply Hkeys. by eapply list_elem_of_lookup_2. }
    intros r r' Hr Hr'. rewrite !record_columns_keys.
    destruct (Hone_r r Hr) as [-> ->], (Hone_r r' Hr') as [-> ->]. done. }
  destruct (flattened_rows rs) as (df & Hdf & Hrows).
  { intros ->. destruct grid; [done|]. simpl in Hlen. lia. }
  { intros r Hr. by apply Hflat. }
  { done. }
  assert (Hchunk : ∀ r, r ∈ rs → length (record_rows r) = n).
  { intros r Hr. unfold record_rows.
    rewrite length_fmap, length_seq. by apply Hflat. }
  exists df. split_and!.
  - by rewrite Hrun.
  - by rewrite Hrows, (bind_length_uniform record_rows n), Hlen.
  - intros k i params a_k Hp Hs Hi.
    destruct (Hrs k params a_k Hp Hs) as (r & Hr & _).
    destruct (Hrec k r Hr) as (params' & a_k' & Hp' & Hs' & Hnum & Hvals & Hdk & Hdnd & Hdv).
    rewrite Hp in Hp'. injection Hp' as <-. rewrite Hs in Hs'. injection Hs' as <-.
    assert (Hrep : replications r = n) by (apply Hflat; by eapply list_elem_of_lookup_2).
    assert (Hpk : params.*1 = scenario_inputs.*1)
      by (apply Hkeys; by eapply list_elem_of_lookup_2).
    exists (record_row r i). split_and!.
    + rewrite Hrows, (bind_lookup_uniform record_rows n rs k r i) by done.
      unfold record_rows. rewrite list_lookup_fmap, lookup_seq_lt by lia. done.
    + intros key v Hin. unfold record_row. rewrite Hvals.
      apply dict_get_update_in; [by rewrite Hpk|done].
    + intros Hsn. unfold record_row.
      rewrite dict_get_update_notin by (by rewrite Hvals, Hpk).
      by rewrite dict_get_set_eq, Hnum.
    + intros o Ho Hne. destruct (Hdv o Ho) as (l & Hget & Hinv & Hl).
      destruct (lookup_lt_is_Some_2 l i) as [x Hx]; [lia|].
      exists l, x. split_and!; [done|done|].
      assert (Hfresh : o ∉ scenario_inputs.*1).
      { intros Hin. rewrite invoke_shadowed in Hinv; [done|].
        destruct (clone_states_lookup scenario_inputs.*1 installed grid k params a_k
                    Hkeys Hp Hs) as (_ & _ & H3). by apply H3. }
      unfold record_row.
      rewrite dict_get_update_notin by (by rewrite Hvals, Hpk).
      rewrite dict_get_set_ne by done.
      rewrite dict_get_fmap, Hget. simpl. by rewrite Hx.
Qed.

Lemma simulate_then_flatten_witness :
  ∃ df,
    ((simulate Examples.example_class 0 [("d", VList [VInt 7; VInt 8])] ["identity"]
        (Some [("x", [VInt 1; VInt 2])]) false [Examples.example_model]).1
       ≫= get_sim_results_df) = Ok df ∧
    length (frame_rows df) = 2 * 2.
Proof.
  destruct (simulate_then_flatten Examples.example_class 0 [Examples.example_model]
              [("d", VList [VInt 7; VInt 8])] ["identity"] [("x", [VInt 1; VInt 2])]
              false [[("x", VInt 1)]; [("x", VInt 2)]] 2)
    as (df & Hdf & Hlen & _).
  - apply NoDup_singleton.
  - reflexivity.
  - reflexivity.
  - intros Hin%list_elem_of_singleton. discriminate.
  - discriminate.
  - discriminate.
  - repeat constructor.
  - intros o _. apply example_class_read_only.
  - intros a o Ha ->%list_elem_of_singleton. simpl in Ha.
    repeat (apply elem_of_cons in Ha as [->|Ha]);
      [eexists; split; [vm_compute; reflexivity|reflexivity]..
      |by apply elem_of_nil in Ha].
  - exists df. split; [exact Hdf|exact Hlen].
Defined.

(** The table of the example: two replications in each of two scenarios. *)
Example simulate_then_flatten_example :
  ∃ df,
    ((simulate Examples.example_class 0 [("d", VList [VInt 7; VInt 8])] ["identity"]
        (Some [("x", [VInt 1; VInt 2])]) false [Examples.example_model]).1
       ≫= get_sim_results_df) = Ok df ∧
    frame_rows df =
      [ [("identity", VInt 7); ("scenario_num", VInt 0); ("x", VInt 1)];
        [("identity", VInt 8); ("scenario_num", VInt 0); ("x", VInt 1)];
        [("identity", VInt 7); ("scenario_num", VInt 1); ("x", VInt 2)];
        [("identity", VInt 8); ("scenario_num", VInt 1); ("x", VInt 2)] ].
Proof. eexists. split; [vm_compute; reflexivity|]. vm_compute. reflexivity. Qed.

(** X16. With [keep_random_inputs] true, no scenario grid and read-only
    outputs, the [scenario_base_vals] of the single record shows, after the
    call, the model's attributes with the random inputs installed. *)
Theorem simulate_base_vals_installed (cls : model_class) (self : loc) (h h' : heap)
    (random_inputs : pydict value) (outputs : list string)
    (rs : list scenario_record) :
  (∀ o, o ∈ outputs → read_only cls o) →
  simulate cls self random_inputs outputs None true h = (Ok rs, h') →
  ∀ r, r ∈ rs → base_vals_in h' r = updated (attrs_at h self) random_inputs.
Proof.
  intros Hro Hrun r Hr.
  destruct (simulate_bases _ _ _ _ _ _ _ _ _ Hrun) as [Hbase _].
  rewrite Forall_forall in Hbase. unfold base_vals_in. rewrite (Hbase r Hr).
  revert Hrun. unfold simulate.
  erewrite bind_run_ok by reflexivity.
  erewrite bind_run_ok.
  2:{ apply update_updated. by rewrite lookup_app_r, Nat.sub_diag. }
  erewrite bind_run_ok by reflexivity.
  rewrite bind_run.
  rewrite (eval_outputs_read_only _ _ _ _ _ (updated (attrs_at h self) random_inputs)).
  - destruct (output_values cls _ outputs []) as [raw|e]; [|done].
    intros [= _ <-]. unfold attrs_at.
    rewrite list_lookup_insert_eq; [done|]. rewrite length_app. simpl. lia.
  - done.
  - apply list_lookup_insert_eq. rewrite length_app. simpl. lia.
Qed.

Lemma simulate_base_vals_installed_witness :
  let run := simulate Examples.example_class 0 [("d", VList [VInt 7])] ["identity"]
               None true [Examples.example_model] in
  let r0 := {| scenario_base_vals := 1; scenario_num := 0; scenario_vals := [];
               output := [("identity", VList [VInt 7])] |} in
  base_vals_in run.2 r0
    = updated (attrs_at [Examples.example_model] 0) [("d", VList [VInt 7])].
Proof.
  intros run r0.
  apply (simulate_base_vals_installed Examples.example_class 0 [Examples.example_model]
           run.2 [("d", VList [VInt 7])] ["identity"] [r0]).
  - intros o _. apply example_class_read_only.
  - vm_compute. reflexivity.
  - left.
Defined.

(** ** What a model prints *)

Lemma str_items_lookup a shown key :
  str_items a = Ok shown →
  shown !! key = if public_name key then a !! key else None.
Proof.
  unfold str_items. case_decide; [done|]. intros [= <-].
  destruct (public_name key) eqn:Hpub.
  - destruct (a !! key) as [v|] eqn:Hkey.
    + by apply map_lookup_filter_Some.
    + apply map_lookup_filter_None. left. done.
  - apply map_lookup_filter_None. right. intros v _. simpl. by rewrite Hpub.
Qed.

(** X17. After [update], the dictionary [__str__] formats shows every
    attribute the update named with the new value and every other
    attribute with its old one, except that names starting with an
    underscore are left out; and an update that names the empty string
    makes [__str__] raise [IndexError] from then on. *)
Theorem update_then_str (self : loc) (param_dict : pydict value) (h : heap)
    (a : gmap string value) :
  h !! self = Some a →
  NoDup param_dict.*1 →
  a !! EmptyString = None →
  let a' := attrs_at (update self param_dict h).2 self in
  (EmptyString ∈ param_dict.*1 → str_items a' = Raise IndexError) ∧
  (EmptyString ∉ param_dict.*1 →
   ∃ shown,
     str_items a' = Ok shown ∧
     (∀ key v, (key, v) ∈ param_dict →
        shown !! key = if public_name key then Some v else None) ∧
     (∀ key, key ∉ param_dict.*1 →
        shown !! key = if public_name key then a !! key else None)).
Proof.
  intros Hself Hnd Hempty a'.
  assert (Ha' : a' = updated a param_dict).
  { unfold a', attrs_at. rewrite (update_updated self param_dict h a Hself). simpl.
    rewrite list_lookup_insert_eq; [done|]. by eapply lookup_lt_Some. }
  rewrite Ha'. split.
  - intros Hin. unfold str_items.
    rewrite decide_True; [done|]. by apply updated_is_Some.
  - intros Hnin.
    assert (Hnone : updated a param_dict !! EmptyString = None).
    { by rewrite updated_lookup_notin. }
    exists (filter (λ kv, public_name kv.1 = true) (updated a param_dict)).
    assert (Hstr : str_items (updated a param_dict)
                   = Ok (filter (λ kv, public_name kv.1 = true) (updated a param_dict))).
    { unfold str_items. rewrite decide_False; [done|].
      rewrite Hnone. by intros [? ?]. }
    split_and!; [done| |].
    + intros key v Hin. rewrite (str_items_lookup _ _ key Hstr).
      by rewrite (updated_lookup_in a param_dict key v).
    + intros key Hkey. rewrite (str_items_lookup _ _ key Hstr).
      by rewrite updated_lookup_notin.
Qed.

Lemma update_then_str_witness :
  let params := [("x", VInt 3); ("_cache", VInt 4)] in
  let a' := attrs_at (update 0 params [Examples.example_model]).2 0 in
  (EmptyString ∈ params.*1 → str_items a' = Raise IndexError) ∧
  (EmptyString ∉ params.*1 →
   ∃ shown,
     str_items a' = Ok shown ∧
     (∀ key v, (key, v) ∈ params →
        shown !! key = if public_name key then Some v else None) ∧
     (∀ key, key ∉ params.*1 →
        shown !! key = if public_name key then Examples.example_model !! key else None)).
Proof.
  apply (update_then_str 0 [("x", VInt 3); ("_cache", VInt 4)]
           [Examples.example_model] Examples.example_model).
  - reflexivity.
  - apply NoDup_cons. split; [|apply NoDup_singleton].
    intros Hin%list_elem_of_singleton. discriminate.
  - reflexivity.
Defined.

(** The attributes the example model prints after such an update. *)
Example str_items_example :
  str_items (updated Examples.example_model [("x", VInt 3); ("_cache", VInt 4)])
    = Ok {[ "x" := VInt 3 ]}.
Proof. vm_compute. reflexivity. Qed.

(** ** Outputs that are not methods *)

Lemma eval_outputs_first_raises cls c o outputs acc h a e :
  h !! c = Some a →
  (invoke cls o a).1 = Raise e →
  (eval_outputs cls c (o :: outputs) acc h).1 = Raise e.
Proof.
  intros Hc He. unfold eval_outputs. simpl. rewrite !bind_run.
  unfold call_method, attrs_at. rewrite Hc. simpl.
  destruct (invoke cls o a) as [r a']. simpl in He. by subst r.
Qed.

Lemma invoke_unbound cls o a :
  a !! o = None → cls o = None → (invoke cls o a).1 = Raise AttributeError.
Proof. intros Ha Hcls. unfold invoke. by rewrite Ha, Hcls. Qed.

(** X18. The drivers look a requested output up on the clone and call it.
    When the first requested output names an attribute of the clone, be it
    a model input, a scenario input or a random input, the driver raises
    [TypeError], since the attribute shadows any method of that name and
    holds data; when it names neither an attribute nor a method of the
    class, the driver raises [AttributeError].  [data_table] does so in its
    first scenario, [simulate] without a grid in its single one. *)
Theorem drivers_output_lookup (cls : model_class) (self : loc) (h : heap)
    (scenario_inputs : pydict (list value)) (random_inputs : pydict value)
    (o : string) (outputs : list string) (keep_random_inputs : bool)
    (params : pydict value) (grid : list (pydict value)) :
  create_parameter_grid scenario_inputs = Ok (params :: grid) →
  let first := updated (attrs_at h self) params in
  let installed := updated (attrs_at h self) random_inputs in
  let table := (data_table cls self scenario_inputs (o :: outputs) h).1 in
  let sim := (simulate cls self random_inputs (o :: outputs) None
                keep_random_inputs h).1 in
  (is_Some (first !! o) → table = Raise TypeError) ∧
  (first !! o = None → cls o = None → table = Raise AttributeError) ∧
  (is_Some (installed !! o) → sim = Raise TypeError) ∧
  (installed !! o = None → cls o = None → sim = Raise AttributeError).
Proof.
  intros Hgrid first installed table sim.
  assert (Htable : ∀ e, (invoke cls o first).1 = Raise e → table = Raise e).
  { intros e He. unfold table, data_table.
    erewrite bind_run_ok by reflexivity.
    erewrite bind_run_ok by (unfold lift; by rewrite Hgrid).
    rewrite bind_run. simpl for_loop. rewrite bind_run.
    unfold data_table_scenario at 1.
    erewrite bind_run_ok.
    2:{ apply update_updated. by rewrite lookup_app_r, Nat.sub_diag. }
    rewrite bind_run.
    pose proof (eval_outputs_first_raises cls (length h) o outputs params
                  (<[length h := first]> (h ++ [attrs_at h self])) first e) as Hraise.
    destruct (eval_outputs cls (length h) (o :: outputs) params _) as [r h1].
    simpl in Hraise. rewrite Hraise; [done| |done].
    apply list_lookup_insert_eq. rewrite length_app. simpl. lia. }
  assert (Hsim : ∀ e, (invoke cls o installed).1 = Raise e → sim = Raise e).
  { intros e He. unfold sim, simulate.
    erewrite bind_run_ok by reflexivity.
    erewrite bind_run_ok.
    2:{ apply update_updated. by rewrite lookup_app_r, Nat.sub_diag. }
    erewrite bind_run_ok by apply vars_run.
    rewrite bind_run.
    pose proof (eval_outputs_first_raises cls (length h) o outputs []
                  (<[length h := installed]> (h ++ [attrs_at h self])) installed e)
      as Hraise.
    destruct (eval_outputs cls (length h) (o :: outputs) [] _) as [r h1].
    simpl in Hraise. rewrite Hraise; [done| |done].
    apply list_lookup_insert_eq. rewrite length_app. simpl. lia. }
  split_and!.
  - intros Hattr. by apply Htable, invoke_shadowed.
  - intros Hattr Hcls. by apply Htable, invoke_unbound.
  - intros Hattr. by apply Hsim, invoke_shadowed.
  - intros Hattr Hcls. by apply Hsim, invoke_unbound.
Qed.

Lemma drivers_output_lookup_witness :
  (data_table Examples.example_class 0 [("x", [VInt 1; VInt 2])] ["x"; "double"]
     [Examples.example_model]).1 = Raise TypeError ∧
  (simulate Examples.example_class 0 [("d", VList [VInt 7])] ["d"; "double"] None false
     [Examples.example_model]).1 = Raise TypeError.
Proof.
  destruct (drivers_output_lookup Examples.example_class 0 [Examples.example_model]
              [("x", [VInt 1; VInt 2])] [("d", VList [VInt 7])] "x" ["double"] false
              [("x", VInt 1)] [[("x", VInt 2)]]) as (Htable & _); [reflexivity|].
  destruct (drivers_output_lookup Examples.example_class 0 [Examples.example_model]
              [("x", [VInt 1; VInt 2])] [("d", VList [VInt 7])] "d" ["double"] false
              [("x", VInt 1)] [[("x", VInt 2)]]) as (_ & _ & Hsim & _); [reflexivity|].
  split.
  - apply Htable. vm_compute. by eexists.
  - apply Hsim. vm_compute. by eexists.
Defined.
